(** * GatewayClient: a model of the gateway connection of clawd-monitor

    The development embeds [src/main/gateway.ts] (class [GatewayClient]):
    the socket life cycle, the challenge/response handshake, the
    per-call listeners behind [call()], the reconnect timer and
    [disconnect()].  The client runs on Node's single-threaded event
    loop, so every callback runs to completion; the model is a
    deterministic step function over a state that holds the fields of
    the object together with the objects it shares with its
    environment: the sockets it created (which stay alive, with the
    listeners registered on them, after [this.ws] is reassigned), the
    timers it armed, and the promises it handed out. *)

From Stdlib Require Import NArith ZArith String List Bool Lia.
From Stdlib Require Import DecimalString DecimalN.
From stdpp Require Import base option list strings gmap.

#[local] Set Warnings "-register-all".

Local Open Scope N_scope.
Local Open Scope list_scope.

(** ** JSON values

    What [JSON.parse] returns, and what a property access on such a
    value yields.  [JUndefined] is the value of an absent property. *)

Inductive Json : Type :=
| JUndefined
| JNull
| JBool (b : bool)
| JNum (n : Z)
| JStr (s : string)
| JArr (items : list Json)
| JObj (fields : list (string * Json)).

(** JavaScript truthiness, as used by [if (message.ok)] and [a || b]. *)
Definition truthy (j : Json) : bool :=
  match j with
  | JUndefined | JNull => false
  | JBool b => b
  | JNum n => negb (n =? 0)%Z
  | JStr s => negb (String.eqb s EmptyString)
  | JArr _ | JObj _ => true
  end.

(** [a || b] *)
Definition or_else (a b : Json) : Json := if truthy a then a else b.

(** [null] and [undefined]: a property access on them throws. *)
Definition nullish (j : Json) : bool :=
  match j with
  | JUndefined | JNull => true
  | _ => false
  end.

(** Own property of an object built by [JSON.parse]: for a repeated key
    the last occurrence wins. *)
Fixpoint lookup_field (k : string) (fields : list (string * Json)) : Json :=
  match fields with
  | [] => JUndefined
  | (k', v) :: rest =>
      match lookup_field k rest with
      | JUndefined => if String.eqb k k' then v else JUndefined
      | later => later
      end
  end.

(** [j.k] for a [j] that is neither [null] nor [undefined], and for the
    property names the client reads ([type], [id], [method], [ok],
    [payload], [error], [event], [seq], [stateVersion], [nonce]), none
    of which is inherited by strings, numbers, booleans or arrays. *)
Definition prop (k : string) (j : Json) : Json :=
  match j with
  | JObj fields => lookup_field k fields
  | _ => JUndefined
  end.

(** [j?.k] *)
Definition opt_prop (k : string) (j : Json) : Json :=
  if nullish j then JUndefined else prop k j.

(** [j === 'literal'] *)
Definition is_str (j : Json) (lit : string) : bool :=
  match j with
  | JStr s => String.eqb s lit
  | _ => false
  end.

(** The text of an inbound frame: [JSON.parse(data.toString())] either
    throws a [SyntaxError] or returns a value. *)
Inductive Frame : Type :=
| Garbled
| Text (j : Json).

(** ** The request counter

    [let requestId = 0] is a JavaScript number.  Increments by one are
    exact below 2^53; at 2^53 the sum 2^53 + 1 is not representable and
    rounds back to 2^53, so the counter stops there. *)

Definition MAX_EXACT : N := 2 ^ 53.

Definition post_incr (n : N) : N := if n <? MAX_EXACT then n + 1 else n.

(** Decimal rendering of the counter inside a template literal. *)
Definition show (n : N) : string := NilEmpty.string_of_uint (N.to_uint n).

Definition req_id (n : N) : string := String.append "req-" (show n).
Definition call_id (n : N) : string := String.append "call-" (show n).

(** ** Objects shared with the environment *)

Inductive ReadyState : Type := CONNECTING | OPEN | CLOSING | CLOSED.

Definition is_OPEN (r : ReadyState) : bool :=
  match r with OPEN => true | _ => false end.

(** The [GatewayMessage] handed to [JSON.stringify] and [ws.send]. *)
Record Request : Type := mkRequest {
  rq_id : string;
  rq_method : string;
  rq_params : Json
}.

(** A socket created by [connect()].  The four listeners that
    [connect()] installs are on every socket; [listeners] holds the
    additional ['message'] listeners of [call()], oldest first, each
    named by the index of the promise whose executor registered it. *)
Record WebSocket : Type := mkSocket {
  readyState : ReadyState;
  listeners : list nat;
  sent : list Request
}.

Inductive Callback : Type :=
| Reconnect
| CallTimeout (k : nat).

Inductive TimerStatus : Type := Armed | Fired | Cleared.

Record Timer : Type := mkTimer {
  due : N;
  callback : Callback;
  status : TimerStatus
}.

(** The errors a [call()] promise is rejected with. *)
Inductive CallError : Type :=
| NotConnected                  (* new Error('Not connected to Gateway') *)
| ResponseError (error : Json)  (* new Error(JSON.stringify(response.error)) *)
| ParseError                    (* the exception caught in the listener *)
| Timeout.                      (* new Error('Gateway call timeout') *)

Inductive Settlement : Type :=
| Pending
| Resolved (payload : Json)
| Rejected (e : CallError).

(** A promise returned by [call()], with the [id] its closure captured
    ([None] when the executor returned before allocating one). *)
Record Call : Type := mkCall {
  corr : option string;
  outcome : Settlement
}.

Record GatewayEvent : Type := mkEvent {
  ev_type : Json;
  ev_payload : Json;
  ev_seq : Json;
  ev_stateVersion : Json;
  ev_timestamp : N
}.

Inductive EmitArg : Type :=
| NoArg
| EventArg (ev : GatewayEvent)
| ErrorArg (err : string).

(** One [this.emit(channel, arg)]. *)
Record Emission : Type := mkEmission {
  channel : Json;
  arg : EmitArg
}.

Inductive LogLine : Type :=
| LogOpen
| LogMessage (ty what : Json)
| LogChallenge
| LogHandshakeOk
| LogHandshakeFailed (error : Json)
| LogParseFailure
| LogTransportError (err : string)
| LogDisconnected
| LogReconnecting.

(** ** The state *)

Record State : Type := mkState {
  (* fields of GatewayClient *)
  ws : option nat;               (* this.ws, an index into [sockets] *)
  reconnectTimer : option nat;   (* this.reconnectTimer, an index into [timers] *)
  connected : bool;
  token : option string;
  (* module and process state *)
  requestId : N;
  platform : string;
  now : N;                       (* Date.now(), in ms *)
  sockets : list WebSocket;
  timers : list Timer;
  calls : list Call;
  (* what collaborators observe *)
  emitted : list Emission;
  console : list LogLine
}.

Definition reconnectDelay : N := 2000.
Definition callTimeout : N := 30000.

Definition init (tok : option string) (plat : string) : State :=
  {| ws := None; reconnectTimer := None; connected := false; token := tok;
     requestId := 0; platform := plat; now := 0;
     sockets := []; timers := []; calls := [];
     emitted := []; console := [] |}.

Definition set_ws (v : option nat) (w : State) : State :=
  {| ws := v; reconnectTimer := reconnectTimer w; connected := connected w;
     token := token w; requestId := requestId w; platform := platform w;
     now := now w; sockets := sockets w; timers := timers w; calls := calls w;
     emitted := emitted w; console := console w |}.

Definition set_reconnectTimer (v : option nat) (w : State) : State :=
  {| ws := ws w; reconnectTimer := v; connected := connected w;
     token := token w; requestId := requestId w; platform := platform w;
     now := now w; sockets := sockets w; timers := timers w; calls := calls w;
     emitted := emitted w; console := console w |}.

Definition set_connected (v : bool) (w : State) : State :=
  {| ws := ws w; reconnectTimer := reconnectTimer w; connected := v;
     token := token w; requestId := requestId w; platform := platform w;
     now := now w; sockets := sockets w; timers := timers w; calls := calls w;
     emitted := emitted w; console := console w |}.

Definition set_requestId (v : N) (w : State) : State :=
  {| ws := ws w; reconnectTimer := reconnectTimer w; connected := connected w;
     token := token w; requestId := v; platform := platform w;
     now := now w; sockets := sockets w; timers := timers w; calls := calls w;
     emitted := emitted w; console := console w |}.

Definition set_now (v : N) (w : State) : State :=
  {| ws := ws w; reconnectTimer := reconnectTimer w; connected := connected w;
     token := token w; requestId := requestId w; platform := platform w;
     now := v; sockets := sockets w; timers := timers w; calls := calls w;
     emitted := emitted w; console := console w |}.

Definition set_sockets (v : list WebSocket) (w : State) : State :=
  {| ws := ws w; reconnectTimer := reconnectTimer w; connected := connected w;
     token := token w; requestId := requestId w; platform := platform w;
     now := now w; sockets := v; timers := timers w; calls := calls w;
     emitted := emitted w; console := console w |}.

Definition set_timers (v : list Timer) (w : State) : State :=
  {| ws := ws w; reconnectTimer := reconnectTimer w; connected := connected w;
     token := token w; requestId := requestId w; platform := platform w;
     now := now w; sockets := sockets w; timers := v; calls := calls w;
     emitted := emitted w; console := console w |}.

Definition set_calls (v : list Call) (w : State) : State :=
  {| ws := ws w; reconnectTimer := reconnectTimer w; connected := connected w;
     token := token w; requestId := requestId w; platform := platform w;
     now := now w; sockets := sockets w; timers := timers w; calls := v;
     emitted := emitted w; console := console w |}.

(** [this.emit(ch, a)].  The listeners of collaborators are outside the
    class; they are taken to return normally, so an emission is a line
    of the record of what was emitted. *)
Definition emit (ch : Json) (a : EmitArg) (w : State) : State :=
  {| ws := ws w; reconnectTimer := reconnectTimer w; connected := connected w;
     token := token w; requestId := requestId w; platform := platform w;
     now := now w; sockets := sockets w; timers := timers w; calls := calls w;
     emitted := emitted w ++ [mkEmission ch a]; console := console w |}.

(** [console.log] and [console.error] *)
Definition log (l : LogLine) (w : State) : State :=
  {| ws := ws w; reconnectTimer := reconnectTimer w; connected := connected w;
     token := token w; requestId := requestId w; platform := platform w;
     now := now w; sockets := sockets w; timers := timers w; calls := calls w;
     emitted := emitted w; console := console w ++ [l] |}.

(** ** The transport library

    What the client relies on from the socket object: [close()] moves a
    socket that is connecting or open to [CLOSING] and does nothing on
    one that is closing or closed; [send()] queues a frame;
    [off('message', h)] removes listener [h]. *)

Definition new_socket : WebSocket :=
  {| readyState := CONNECTING; listeners := []; sent := [] |}.

Definition with_readyState (r : ReadyState) (k : WebSocket) : WebSocket :=
  {| readyState := r; listeners := listeners k; sent := sent k |}.

Definition with_listeners (ls : list nat) (k : WebSocket) : WebSocket :=
  {| readyState := readyState k; listeners := ls; sent := sent k |}.

Definition with_sent (q : list Request) (k : WebSocket) : WebSocket :=
  {| readyState := readyState k; listeners := listeners k; sent := q |}.

Definition closing (r : ReadyState) : ReadyState :=
  match r with
  | CONNECTING | OPEN => CLOSING
  | CLOSING => CLOSING
  | CLOSED => CLOSED
  end.

(** Apply [f] to socket [s] of the store. *)
Definition on_socket (s : nat) (f : WebSocket -> WebSocket) (w : State) : State :=
  match sockets w !! s with
  | Some k => set_sockets (<[s := f k]> (sockets w)) w
  | None => w
  end.

(** [ws.close()] *)
Definition ws_close (s : nat) (w : State) : State :=
  on_socket s (fun k => with_readyState (closing (readyState k)) k) w.

(** [this.ws?.close()] *)
Definition close_current (w : State) : State :=
  match ws w with
  | Some s => ws_close s w
  | None => w
  end.

(** [ws.send(JSON.stringify(message))] *)
Definition ws_send (s : nat) (m : Request) (w : State) : State :=
  on_socket s (fun k => with_sent (sent k ++ [m]) k) w.

(** [ws.on('message', handler)] *)
Definition ws_on_message (s : nat) (h : nat) (w : State) : State :=
  on_socket s (fun k => with_listeners (listeners k ++ [h]) k) w.

Definition drop_listener (h : nat) (ls : list nat) : list nat :=
  List.filter (fun h' => negb (Nat.eqb h' h)) ls.

(** [this.ws?.off('message', handler)]: on the socket [this.ws] names
    when the listener runs, which need not be the one it was registered
    on.  Every listener is a fresh closure registered once, so removing
    it is removing every occurrence of its name. *)
Definition off (h : nat) (w : State) : State :=
  match ws w with
  | Some s => on_socket s (fun k => with_listeners (drop_listener h (listeners k)) k) w
  | None => w
  end.

(** [this.ws?.readyState === WebSocket.OPEN] *)
Definition ws_is_open (w : State) : bool :=
  match ws w with
  | Some s =>
      match sockets w !! s with
      | Some k => is_OPEN (readyState k)
      | None => false
      end
  | None => false
  end.

(** ** Timers and promises *)

(** [setTimeout(cb, delay)]; the handle is the index of the new timer. *)
Definition setTimeout (cb : Callback) (delay : N) (w : State) : State :=
  set_timers (timers w ++ [{| due := now w + delay; callback := cb; status := Armed |}]) w.

Definition with_status (st : TimerStatus) (t : Timer) : Timer :=
  {| due := due t; callback := callback t; status := st |}.

(** [clearTimeout(handle)]: cancels a timer that has not fired. *)
Definition clearTimeout (t : nat) (w : State) : State :=
  match timers w !! t with
  | Some tm =>
      match status tm with
      | Armed => set_timers (<[t := with_status Cleared tm]> (timers w)) w
      | _ => w
      end
  | None => w
  end.

(** [resolve] and [reject] of promise [k]: only the first one called
    has an effect. *)
Definition settle (k : nat) (o : Settlement) (w : State) : State :=
  match calls w !! k with
  | Some c =>
      match outcome c with
      | Pending => set_calls (<[k := {| corr := corr c; outcome := o |}]> (calls w)) w
      | _ => w
      end
  | None => w
  end.

Definition resolve (k : nat) (v : Json) : State -> State := settle k (Resolved v).
Definition reject (k : nat) (e : CallError) : State -> State := settle k (Rejected e).

(** ** The methods of GatewayClient *)

(** [connect()] *)
Definition connect (w : State) : State :=
  if ws_is_open w then w
  else set_ws (Some (length (sockets w))) (set_sockets (sockets w ++ [new_socket]) w).

(** [sendRequest(method, params)] *)
Definition sendRequest (method : string) (params : Json) (w : State) : State :=
  if ws_is_open w then
    match ws w with
    | Some s =>
        let id := req_id (requestId w) in
        ws_send s (mkRequest id method params)
                (set_requestId (post_incr (requestId w)) w)
    | None => w
    end
  else w.

(** [scheduleReconnect()] *)
Definition scheduleReconnect (w : State) : State :=
  match reconnectTimer w with
  | Some _ => w
  | None =>
      set_reconnectTimer (Some (length (timers w)))
                         (setTimeout Reconnect reconnectDelay w)
  end.

(** [disconnect()] *)
Definition disconnect (w : State) : State :=
  let w1 :=
    match reconnectTimer w with
    | Some t => set_reconnectTimer None (clearTimeout t w)
    | None => w
    end in
  let w2 :=
    match ws w1 with
    | Some s => set_ws None (ws_close s w1)
    | None => w1
    end in
  set_connected false w2.

(** [isConnected()] *)
Definition isConnected (w : State) : bool := connected w && ws_is_open w.

(** The params of the handshake request.  [JSON.stringify] leaves out
    [auth] when it is [undefined]. *)
Definition connect_params (w : State) (nonce : Json) : Json :=
  JObj [ ("minProtocol", JNum 3); ("maxProtocol", JNum 3);
         ("client", JObj [ ("id", JStr "clawd-monitor");
                           ("displayName", JStr "Clawd Monitor");
                           ("version", JStr "1.0.0");
                           ("platform", JStr (platform w));
                           ("mode", JStr "operator") ]);
         ("role", JStr "operator");
         ("scopes", JArr [JStr "operator.read"; JStr "operator.write"]);
         ("caps", JArr []);
         ("commands", JArr []);
         ("auth", match token w with
                  | Some t => if String.eqb t EmptyString then JUndefined
                              else JObj [("token", JStr t)]
                  | None => JUndefined
                  end);
         ("device", JObj [("nonce", nonce)]);
         ("locale", JStr "en-US");
         ("userAgent", JStr "clawd-monitor/1.0.0") ]%string.

(** [challenge?.nonce || ''] *)
Definition challenge_nonce (payload : Json) : Json :=
  or_else (opt_prop "nonce" payload) (JStr "").

(** The body of the [try] of the connection's ['message'] listener, for
    a frame that parsed to a value on which [.type] can be read. *)
Definition handle_message (message : Json) (w : State) : State :=
  let w := log (LogMessage (prop "type" message)
                           (or_else (prop "event" message) (prop "method" message))) w in
  if is_str (prop "type" message) "event" then
    if is_str (prop "event" message) "connect.challenge" then
      let challenge := prop "payload" message in
      sendRequest "connect" (connect_params w (challenge_nonce challenge))
                  (log LogChallenge w)
    else
      let name := or_else (prop "event" message) (JStr "unknown") in
      let event := {| ev_type := name;
                      ev_payload := prop "payload" message;
                      ev_seq := prop "seq" message;
                      ev_stateVersion := prop "stateVersion" message;
                      ev_timestamp := now w |} in
      emit name (EventArg event) (emit (JStr "message") (EventArg event) w)
  else if is_str (prop "type" message) "res" then
    if is_str (prop "method" message) "connect" then
      if truthy (prop "ok" message) then
        emit (JStr "connected") NoArg (set_connected true (log LogHandshakeOk w))
      else
        close_current (log (LogHandshakeFailed (prop "error" message)) w)
    else w
  else w.

(** The connection's ['message'] listener. *)
Definition on_message (data : Frame) (w : State) : State :=
  match data with
  | Garbled => log LogParseFailure w
  | Text message =>
      if nullish message then log LogParseFailure w
      else handle_message message w
  end.

(** The ['message'] listener that [call()] registers for promise [k]
    with correlation id [id]. *)
Definition call_handler (k : nat) (id : string) (data : Frame) (w : State) : State :=
  match data with
  | Garbled => reject k ParseError (off k w)
  | Text response =>
      if nullish response then reject k ParseError (off k w)
      else if is_str (prop "type" response) "res" && is_str (prop "id" response) id then
        let w := off k w in
        if truthy (prop "ok" response) then resolve k (prop "payload" response) w
        else reject k (ResponseError (prop "error" response)) w
      else w
  end.

(** Listener [k], looked up in the promise store for the id its closure
    holds. *)
Definition run_listener (data : Frame) (w : State) (k : nat) : State :=
  match calls w !! k with
  | Some c =>
      match corr c with
      | Some id => call_handler k id data w
      | None => w
      end
  | None => w
  end.

(** [call(method, params)]; the promise returned is the one at index
    [length (calls w)]. *)
Definition call (method : string) (params : Json) (w : State) : State :=
  let k := length (calls w) in
  if isConnected w then
    match ws w with
    | Some s =>
        let id := call_id (requestId w) in
        let w := set_calls (calls w ++ [{| corr := Some id; outcome := Pending |}])
                           (set_requestId (post_incr (requestId w)) w) in
        let w := ws_on_message s k w in
        let w := ws_send s (mkRequest id method params) w in
        setTimeout (CallTimeout k) callTimeout w
    | None => w
    end
  else
    set_calls (calls w ++ [{| corr := None; outcome := Rejected NotConnected |}]) w.

(** ** The event loop

    One [Event] is one macrotask: a method called by a collaborator, a
    socket event, time passing, or a timer firing.  [step] is [None]
    when the environment cannot produce the event in that state: a
    socket opens only while it is connecting; it delivers frames while
    it is open and, the peer being free to send until its own close
    frame, while it is closing; it reports errors and closes at most
    until it is closed; a timer fires once, while armed and not before
    it is due.  Socket events name the socket they come from: a socket
    that [this.ws] no longer names still has its listeners. *)

Inductive Event : Type :=
| Connect
| Disconnect
| CallReq (method : string) (params : Json)
| WsOpen (s : nat)
| WsMessage (s : nat) (data : Frame)
| WsError (s : nat) (err : string)
| WsClose (s : nat)
| Elapse (ms : N)
| Fire (t : nat).

(** ['open'] listener *)
Definition on_open (w : State) : State := log LogOpen w.

(** ['error'] listener *)
Definition on_error (err : string) (w : State) : State :=
  emit (JStr "error") (ErrorArg err) (log (LogTransportError err) w).

(** ['close'] listener *)
Definition on_close (w : State) : State :=
  scheduleReconnect
    (emit (JStr "disconnected") NoArg (set_connected false (log LogDisconnected w))).

(** Emission of ['message'] on a socket: the connection's listener
    first, then the listeners of pending calls in registration order,
    over the list of listeners as it was when the frame arrived. *)
Definition deliver (k : WebSocket) (data : Frame) (w : State) : State :=
  fold_left (run_listener data) (listeners k) (on_message data w).

(** A timer's callback. *)
Definition run_callback (cb : Callback) (w : State) : State :=
  match cb with
  | Reconnect => connect (log LogReconnecting w)
  | CallTimeout k => reject k Timeout (off k w)
  end.

Definition step (w : State) (e : Event) : option State :=
  match e with
  | Connect => Some (connect w)
  | Disconnect => Some (disconnect w)
  | CallReq method params => Some (call method params w)
  | WsOpen s =>
      match sockets w !! s with
      | Some k =>
          match readyState k with
          | CONNECTING => Some (on_open (on_socket s (with_readyState OPEN) w))
          | _ => None
          end
      | None => None
      end
  | WsMessage s data =>
      match sockets w !! s with
      | Some k =>
          match readyState k with
          | OPEN | CLOSING => Some (deliver k data w)
          | _ => None
          end
      | None => None
      end
  | WsError s err =>
      match sockets w !! s with
      | Some k =>
          match readyState k with
          | CLOSED => None
          | _ => Some (on_error err w)
          end
      | None => None
      end
  | WsClose s =>
      match sockets w !! s with
      | Some k =>
          match readyState k with
          | CLOSED => None
          | _ => Some (on_close (on_socket s (with_readyState CLOSED) w))
          end
      | None => None
      end
  | Elapse ms => Some (set_now (now w + ms) w)
  | Fire t =>
      match timers w !! t with
      | Some tm =>
          match status tm with
          | Armed =>
              if due tm <=? now w then
                Some (run_callback (callback tm)
                        (set_timers (<[t := with_status Fired tm]> (timers w)) w))
              else None
          | _ => None
          end
      | None => None
      end
  end.

Fixpoint run (w : State) (es : list Event) : option State :=
  match es with
  | [] => Some w
  | e :: es' =>
      match step w e with
      | Some w' => run w' es'
      | None => None
      end
  end.

(** States the client can be in: those reached from a fresh client by
    some sequence of events. *)
Definition reachable (w : State) : Prop :=
  exists tok plat es, run (init tok plat) es = Some w.

(** * Predicates and sample inputs of the statements *)

(** [w'] differs from [w] at most in the promise store and in the
    listener lists of the sockets. *)
Definition only_calls_and_listeners (w w' : State) : Prop :=
  ws w' = ws w /\ reconnectTimer w' = reconnectTimer w /\
  connected w' = connected w /\ token w' = token w /\
  requestId w' = requestId w /\ platform w' = platform w /\ now w' = now w /\
  timers w' = timers w /\ emitted w' = emitted w /\ console w' = console w /\
  readyState <$> sockets w' = readyState <$> sockets w /\
  sent <$> sockets w' = sent <$> sockets w.

(** [response.type === 'res' && response.id === id] *)
Definition answers (id : string) (response : Json) : bool :=
  is_str (prop "type" response) "res" && is_str (prop "id" response) id.

(** What a frame does to the promise of a call that holds [id]: the
    verdict of [call_handler], read off its branches. *)
Definition verdict (id : string) (data : Frame) : option Settlement :=
  match data with
  | Garbled => Some (Rejected ParseError)
  | Text response =>
      if nullish response then Some (Rejected ParseError)
      else if answers id response then
        Some (if truthy (prop "ok" response)
              then Resolved (prop "payload" response)
              else Rejected (ResponseError (prop "error" response)))
      else None
  end.

(** How a frame may change the promise store: each promise is either
    untouched, or it was pending and got the verdict of the frame for
    its own id. *)
Definition evolves (data : Frame) (cs cs' : list Call) : Prop :=
  forall k,
    cs' !! k = cs !! k \/
    exists id o,
      cs !! k = Some {| corr := Some id; outcome := Pending |} /\
      verdict id data = Some o /\
      cs' !! k = Some {| corr := Some id; outcome := o |}.

(** A frame whose handling ends in the [catch]: the text is not JSON,
    or it is JSON for [null], on which [.type] cannot be read. *)
Definition malformed (data : Frame) : bool :=
  match data with
  | Garbled => true
  | Text j => nullish j
  end.

(** An event named [connect.challenge]. *)
Definition is_challenge (j : Json) : bool :=
  negb (nullish j) && is_str (prop "type" j) "event" &&
  is_str (prop "event" j) "connect.challenge".

(** A response whose method is [connect]. *)
Definition is_connect_reply (j : Json) : bool :=
  negb (nullish j) && is_str (prop "type" j) "res" &&
  is_str (prop "method" j) "connect".

(** [{"type":"event","event":"connect.challenge","payload":{"nonce":...}}] *)
Definition challenge (nonce : string) : Json :=
  JObj [("type", JStr "event"); ("event", JStr "connect.challenge");
        ("payload", JObj [("nonce", JStr nonce)])]%string.

(** [{"type":"res","method":"connect","ok":true}] *)
Definition acceptance : Json :=
  JObj [("type", JStr "res"); ("method", JStr "connect"); ("ok", JBool true)]%string.

(** [{"type":"res","method":"connect","ok":false,"error":{"code":"UNAUTHORIZED"}}] *)
Definition refusal : Json :=
  JObj [("type", JStr "res"); ("method", JStr "connect"); ("ok", JBool false);
        ("error", JObj [("code", JStr "UNAUTHORIZED")])]%string.

(** [{"type":"res","id":...,"ok":true,"payload":...}] *)
Definition response (id : string) (payload : Json) : Json :=
  JObj [("type", JStr "res"); ("id", JStr id); ("ok", JBool true);
        ("payload", payload)]%string.

Definition fresh : State := init None "linux".

(** connect(), the socket opens, the challenge arrives and is answered,
    the gateway accepts. *)
Definition handshake : list Event :=
  [Connect; WsOpen 0; WsMessage 0 (Text (challenge "abc")); WsMessage 0 (Text acceptance)].

(** What a collaborator sees of the client after the events [es]. *)
Definition observe {A : Type} (view : State -> A) (es : list Event) : option A :=
  view <$> run fresh es.

(** A client that completed the handshake and has one call in flight. *)
Definition one_call_pending : State :=
  Eval vm_compute in
    default fresh (run fresh (handshake ++ [CallReq "cron.list" (JObj [])])).

(** The challenge was answered and the reply is awaited. *)
Definition awaiting_reply : State :=
  Eval vm_compute in
    default fresh (run fresh [Connect; WsOpen 0; WsMessage 0 (Text (challenge "abc"))]).

(** The handshake completed. *)
Definition ready : State :=
  Eval vm_compute in default fresh (run fresh handshake).

(** The socket is open and no challenge has arrived yet. *)
Definition awaiting_challenge : State :=
  Eval vm_compute in default fresh (run fresh [Connect; WsOpen 0]).

(** [disconnect()] was called while the socket was open; the socket is
    closing and [this.ws] is [null]. *)
Definition disconnected_closing : State :=
  Eval vm_compute in default fresh (run fresh [Connect; WsOpen 0; Disconnect]).

Record wf (w : State) : Prop := {
  (* [this.reconnectTimer], when set, names a reconnect timer *)
  wf_handle : forall t, reconnectTimer w = Some t ->
    exists tm, timers w !! t = Some tm /\ callback tm = Reconnect;
  (* every armed reconnect timer is the one [this.reconnectTimer] names *)
  wf_single : forall t tm, timers w !! t = Some tm ->
    callback tm = Reconnect -> status tm = Armed -> reconnectTimer w = Some t;
  (* every pending promise has its timeout armed *)
  wf_deadline : forall k c, calls w !! k = Some c -> outcome c = Pending ->
    exists t tm, timers w !! t = Some tm /\ callback tm = CallTimeout k /\
                 status tm = Armed;
  (* a timeout belongs to a promise that exists *)
  wf_owner : forall t tm k, timers w !! t = Some tm ->
    callback tm = CallTimeout k -> (k < length (calls w))%nat
}.

(** The events that account for the outcome of a promise. *)
Definition justified (es : list Event) (c : Call) : Prop :=
  match outcome c with
  | Pending => True
  | Resolved v =>
      exists s j id,
        In (WsMessage s (Text j)) es /\ corr c = Some id /\
        nullish j = false /\ answers id j = true /\
        truthy (prop "ok" j) = true /\ prop "payload" j = v
  | Rejected (ResponseError er) =>
      exists s j id,
        In (WsMessage s (Text j)) es /\ corr c = Some id /\
        nullish j = false /\ answers id j = true /\
        truthy (prop "ok" j) = false /\ prop "error" j = er
  | Rejected ParseError =>
      exists s data, In (WsMessage s data) es /\ malformed data = true
  | Rejected Timeout => exists t, In (Fire t) es
  | Rejected NotConnected => corr c = None
  end.

(** The ids held by promises are ids the counter has already passed,
    and no two promises hold the same one: as long as the counter is
    below 2^53. *)
Definition ids_fresh (w : State) : Prop :=
  requestId w < MAX_EXACT ->
  forall k c id, calls w !! k = Some c -> corr c = Some id ->
    (exists n, id = call_id n /\ n < requestId w) /\
    (forall k2 c2, calls w !! k2 = Some c2 -> corr c2 = Some id -> k2 = k).

Definition two_calls_answered_in_reverse : list Event :=
  handshake ++
  [CallReq "cron.list" (JObj []); CallReq "agent.send" (JObj []);
   WsMessage 0 (Text (response "call-2" (JStr "second")));
   WsMessage 0 (Text (response "call-1" (JStr "first")))].

Definition both_resolved : State :=
  Eval vm_compute in default fresh (run fresh two_calls_answered_in_reverse).

(** An event that is neither a frame with a verdict for the call that
    holds [id] (a response bearing [id], or a malformed frame) nor the
    firing of timer [t]. *)
Definition quiet (id : string) (t : nat) (e : Event) : bool :=
  match e with
  | WsMessage _ data =>
      match verdict id data with
      | None => true
      | Some _ => false
      end
  | Fire t' => negb (Nat.eqb t' t)
  | _ => true
  end.

(** Call [k], holding [id], is pending, and [t] is its timeout, due at
    [deadline]. *)
Record in_flight (k t : nat) (id : string) (deadline : N) (w : State) : Prop := {
  fl_call : calls w !! k = Some {| corr := Some id; outcome := Pending |};
  fl_timer : exists tm, timers w !! t = Some tm /\ due tm = deadline /\
                        callback tm = CallTimeout k;
  fl_only : forall t' tm', timers w !! t' = Some tm' ->
                           callback tm' = CallTimeout k -> t' = t
}.

(** The call was made, its 30 seconds passed without a frame, and its
    timer fired. *)
Definition timed_out : State :=
  Eval vm_compute in
    default fresh (run fresh (handshake ++ [CallReq "agent.send" (JObj []);
                                            Elapse 30000; Fire 0])).

(** An event that is not a collaborator calling [connect()] or
    [disconnect()]. *)
Definition hands_off (e : Event) : bool :=
  match e with
  | Connect | Disconnect => false
  | _ => true
  end.

(** * The collaborators of the client

    [src/main/index.ts] keeps the last events the client forwarded and
    a small cache in front of the command-line tool; the event view of
    the renderer ([FilteredEvents]) keeps its own list of what the main
    process passed on. *)

(** ** The event buffer of the main process *)

Definition MAX_EVENTS : nat := 100.

(** The listener of ['message']: [events.push(event)], then
    [events.shift()] if the array has grown past [MAX_EVENTS]. *)
Definition record_event (events : list GatewayEvent) (event : GatewayEvent)
  : list GatewayEvent :=
  let events := events ++ [event] in
  if (MAX_EVENTS <? length events)%nat then tail events else events.

(** ** Channels

    [EventEmitter] keeps the listeners of a channel in a property of
    that name, and [emit(type, ...)] reads [events[type]]: the value
    passed as [type] is converted to a property key.  The client passes
    [message.event] as [JSON.parse] returned it, which need not be a
    string.  A string is its own key; [true], [false] and [null] are
    their names; an array is the keys of its items joined by commas,
    with nothing for an item that is [null]; an object is
    ["[object Object]"], unless it has a property [toString] of its
    own, which is not a function: the conversion then throws a
    [TypeError] ([None]).  The text of a number is left open:
    [number_text] stands for [String(n)]. *)

Section Channels.

Variable number_text : Z -> string.

Definition has_field (k : string) (fields : list (string * Json)) : bool :=
  existsb (fun kv => String.eqb k (fst kv)) fields.

Fixpoint property_key (v : Json) : option string :=
  match v with
  | JUndefined => Some "undefined"%string
  | JNull => Some "null"%string
  | JBool true => Some "true"%string
  | JBool false => Some "false"%string
  | JNum n => Some (number_text n)
  | JStr s => Some s
  | JArr items =>
      (fix join (l : list Json) : option string :=
         match l with
         | [] => Some EmptyString
         | x :: rest =>
             let item :=
               match x with
               | JUndefined | JNull => Some EmptyString
               | _ => property_key x
               end in
             match item, rest with
             | None, _ => None
             | Some t, [] => Some t
             | Some t, _ =>
                 match join rest with
                 | Some r => Some (String.append t (String.append "," r))
                 | None => None
                 end
             end
         end) items
  | JObj fields =>
      if has_field "toString" fields then None
      else Some "[object Object]"%string
  end.

(** An emission on [ch] runs the listeners registered as [name]. *)
Definition listens (name : string) (ch : Json) : bool :=
  match property_key ch with
  | Some key => String.eqb key name
  | None => false
  end.

(** What one emission of the client does to the buffer: the listener
    registered as ['message'] runs for the emissions whose channel has
    that key; they all carry an event. *)
Definition main_listener (events : list GatewayEvent) (e : Emission)
  : list GatewayEvent :=
  if listens "message" (channel e) then
    match arg e with
    | EventArg event => record_event events event
    | _ => events
    end
  else events.

(** The buffer after the emissions [es], the listener having been
    registered before [gateway.connect()]. *)
Definition main_events (es : list Emission) : list GatewayEvent :=
  fold_left main_listener es [].

(** The status the main process last sent to the windows: [true] by the
    listener registered as ['connected'], [false] by the one registered
    as ['disconnected']. *)
Definition status_listener (shown : bool) (e : Emission) : bool :=
  if listens "connected" (channel e) then true
  else if listens "disconnected" (channel e) then false
  else shown.

Definition status_shown (es : list Emission) : bool :=
  fold_left status_listener es false.

End Channels.

(** The digits of an integer: [String(n)] for the integers that a
    JavaScript number holds exactly. *)
Definition decimal (n : Z) : string := NilEmpty.string_of_int (Z.to_int n).

(** ** The cache of the main process

    [const cache = new Map<string, { data: unknown; expires: number }>()],
    with the clock passed to the two functions. *)

Record CacheEntry (T : Type) : Type := mkEntry {
  c_data : T;
  c_expires : N
}.

Arguments mkEntry {T} _ _.
Arguments c_data {T} _.
Arguments c_expires {T} _.

Definition CACHE_TTL : N := 5000.

(** [getCached(key)] at time [clock]: the value, and the cache as the
    call leaves it. *)
Definition getCached {T : Type} (clock : N) (key : string)
           (cache : gmap string (CacheEntry T))
  : option T * gmap string (CacheEntry T) :=
  match cache !! key with
  | Some entry =>
      if clock <? c_expires entry then (Some (c_data entry), cache)
      else (None, delete key cache)
  | None => (None, delete key cache)
  end.

(** [setCache(key, data)] at time [clock]. *)
Definition setCache {T : Type} (clock : N) (key : string) (d : T)
           (cache : gmap string (CacheEntry T)) : gmap string (CacheEntry T) :=
  <[key := mkEntry d (clock + CACHE_TTL)]> cache.

(** ** The event list of the renderer *)

(** [handleEvent] of [FilteredEvents]: [[event, ...prev].slice(0, 100)]. *)
Definition handleEvent (prev : list GatewayEvent) (event : GatewayEvent)
  : list GatewayEvent :=
  take 100 (event :: prev).

(** * Further predicates of the statements *)

(** An event frame that is not the challenge. *)
Definition is_pushed_event (j : Json) : bool :=
  negb (nullish j) && is_str (prop "type" j) "event" &&
  negb (is_str (prop "event" j) "connect.challenge").

(** The [GatewayEvent] built for an event frame received at [clock]. *)
Definition normalized (j : Json) (clock : N) : GatewayEvent :=
  {| ev_type := or_else (prop "event" j) (JStr "unknown");
     ev_payload := prop "payload" j;
     ev_seq := prop "seq" j;
     ev_stateVersion := prop "stateVersion" j;
     ev_timestamp := clock |}.

(** [connected] as a function of the events so far: a reply to
    [connect] with a truthy [ok] sets it, a close of any socket and
    [disconnect()] clear it. *)
Definition flag_after (flag : bool) (e : Event) : bool :=
  match e with
  | WsMessage _ (Text j) =>
      if is_connect_reply j && truthy (prop "ok" j) then true else flag
  | WsClose _ | Disconnect => false
  | _ => flag
  end.

Definition cron_finished : Json :=
  JObj [("type", JStr "event"); ("event", JStr "cron.finished");
        ("payload", JObj [("jobId", JStr "backup")]); ("seq", JNum 12)]%string.

Definition event_named_message : Json :=
  JObj [("type", JStr "event"); ("event", JStr "message");
        ("payload", JStr "hello")]%string.

Definition stray_response : Json :=
  JObj [("type", JStr "res"); ("id", JStr "call-77"); ("ok", JBool true);
        ("payload", JStr "nobody asked")]%string.

(** The listener of call [k] is on socket [s]. *)
Definition registered (k s : nat) (w : State) : Prop :=
  exists sock, sockets w !! s = Some sock /\ In k (listeners sock).

Definition first_answer : Json := response "call-1" (JStr "first").

(** What was sent, socket by socket. *)
Definition wire (w : State) : list (list Request) := sent <$> sockets w.

(** The [i]-th request sent on socket [s]. *)
Definition sent_at (w : State) (s i : nat) : option Request :=
  match wire w !! s with
  | Some q => q !! i
  | None => None
  end.

(** [id] is built from the counter value [n]. *)
Definition numbered (n : N) (id : string) : Prop :=
  id = req_id n \/ id = call_id n.

(** From [w] to [w'] nothing was sent. *)
Definition sends_nothing (w w' : State) : Prop :=
  wire w' = wire w /\ requestId w' = requestId w.

(** From [w] to [w'] one request was sent, on the current socket, with
    the id that [tag] builds from the counter, and the counter moved. *)
Definition sends_one (tag : N -> string) (w w' : State) : Prop :=
  exists s0 q r0,
    ws w = Some s0 /\ wire w !! s0 = Some q /\
    wire w' = <[s0 := q ++ [r0]]> (wire w) /\
    rq_id r0 = tag (requestId w) /\
    requestId w' = post_incr (requestId w).

(** From [w] to [w'] a socket was created. *)
Definition opens_socket (w w' : State) : Prop :=
  wire w' = wire w ++ [[]] /\ requestId w' = requestId w.

(** Below 2^53, every request sent bears an id numbered below the
    counter, and no two requests bear the same id. *)
Definition wire_fresh (w : State) : Prop :=
  requestId w < MAX_EXACT ->
  (forall s i r, sent_at w s i = Some r ->
     exists n, n < requestId w /\ numbered n (rq_id r)) /\
  (forall s1 i1 r1 s2 i2 r2,
     sent_at w s1 i1 = Some r1 -> sent_at w s2 i2 = Some r2 ->
     rq_id r1 = rq_id r2 -> s1 = s2 /\ i1 = i2).

(** No timeout of a call is ever cleared. *)
Definition timeouts_kept (w : State) : Prop :=
  forall t tm k, timers w !! t = Some tm -> callback tm = CallTimeout k ->
                 status tm <> Cleared.

(** The call was answered; its timer is still armed. *)
Definition answered : State :=
  Eval vm_compute in
    default fresh (run fresh (handshake ++ [CallReq "cron.list" (JObj []);
                                            WsMessage 0 (Text (response "call-1" (JStr "first")))])).

(** The socket closed once and the reconnect timer is armed. *)
Definition waiting_to_reconnect : State :=
  Eval vm_compute in default fresh (run fresh (handshake ++ [WsClose 0])).

(** The reconnect timer has fired and the client is connected again. *)
Definition reconnected_once : State :=
  Eval vm_compute in
    default fresh
      (run fresh (handshake ++
                  [WsClose 0; Elapse 2000; Fire 0; WsOpen 1;
                   WsMessage 1 (Text (challenge "xyz")); WsMessage 1 (Text acceptance)])).

(** The listeners of calls, socket by socket. *)
Definition ears (w : State) : list (list nat) := listeners <$> sockets w.

(** From [w] to [w'] listeners were only removed. *)
Definition thins (w w' : State) : Prop :=
  forall s q', ears w' !! s = Some q' ->
    exists q, ears w !! s = Some q /\
              (NoDup q -> NoDup q') /\ (forall h, In h q' -> In h q).

(** No listener is registered twice, on one socket or on two, and every
    listener belongs to a promise that exists. *)
Definition listeners_once (w : State) : Prop :=
  forall s q, ears w !! s = Some q ->
    NoDup q /\
    forall h, In h q ->
      (h < length (calls w))%nat /\
      forall s2 q2, ears w !! s2 = Some q2 -> In h q2 -> s2 = s.

Definition two_calls_pending : State :=
  Eval vm_compute in
    default fresh (run fresh (handshake ++ [CallReq "cron.list" (JObj []);
                                            CallReq "agent.send" (JObj [])])).

(** The notifications one event gives rise to, at time [clock]. *)
Definition emits (clock : N) (e : Event) : list Emission :=
  match e with
  | WsMessage _ (Text j) =>
      if is_pushed_event j then
        [mkEmission (JStr "message") (EventArg (normalized j clock));
         mkEmission (or_else (prop "event" j) (JStr "unknown"))
                    (EventArg (normalized j clock))]
      else if is_connect_reply j && truthy (prop "ok" j) then
        [mkEmission (JStr "connected") NoArg]
      else []
  | WsError _ err => [mkEmission (JStr "error") (ErrorArg err)]
  | WsClose _ => [mkEmission (JStr "disconnected") NoArg]
  | _ => []
  end.

(** The name under which a pushed event is emitted. *)
Definition event_name (j : Json) : Json := or_else (prop "event" j) (JStr "unknown").

(** An event that is neither [disconnect()] nor a pushed event whose
    name has the key of the channel ['connected'] or ['disconnected']. *)
Definition plain (number_text : Z -> string) (e : Event) : bool :=
  match e with
  | Disconnect => false
  | WsMessage _ (Text j) =>
      negb (is_pushed_event j &&
            (listens number_text "connected" (event_name j) ||
             listens number_text "disconnected" (event_name j)))
  | _ => true
  end.

(** [{"type":"event","event":["message"],"payload":"hello"}] *)
Definition event_named_by_array : Json :=
  JObj [("type", JStr "event"); ("event", JArr [JStr "message"]);
        ("payload", JStr "hello")]%string.

(** [{"type":"event","event":["connected"]}] *)
Definition event_posing_as_connected : Json :=
  JObj [("type", JStr "event"); ("event", JArr [JStr "connected"])]%string.

(** A reply to [connect] with a truthy [ok], on any socket. *)
Definition accepting (e : Event) : bool :=
  match e with
  | WsMessage _ (Text j) => is_connect_reply j && truthy (prop "ok" j)
  | _ => false
  end.

Definition unaccepted (e : Event) : bool := negb (accepting e).

(** Listener [k] is on no socket but those in [place]. *)
Definition confined (k : nat) (place : nat -> Prop) (w : State) : Prop :=
  forall s q, ears w !! s = Some q -> In k q -> place s.

(** Listener [k] is on no socket. *)
Definition unregistered (k : nat) (w : State) : Prop :=
  confined k (fun _ => False) w.

(** The handshake was refused and the refusal has been handled. *)
Definition refused : State :=
  Eval vm_compute in
    default fresh (run fresh [Connect; WsOpen 0; WsMessage 0 (Text (challenge "abc"));
                              WsMessage 0 (Text refusal)]).

(** * Properties *)

(** ** The request counter and the ids built from it *)

Lemma post_incr_mono (n : N) : n <= post_incr n.
Proof. unfold post_incr. destruct (n <? MAX_EXACT); lia. Qed.

Lemma post_incr_below (n : N) : post_incr n < MAX_EXACT -> post_incr n = n + 1.
Proof.
  unfold post_incr. destruct (N.ltb_spec n MAX_EXACT); [reflexivity | lia].
Qed.

Lemma show_inj (m n : N) : show m = show n -> m = n.
Proof.
  unfold show. intros H.
  apply DecimalN.Unsigned.to_uint_inj.
  assert (Some (N.to_uint m) = Some (N.to_uint n)) as E.
  { rewrite <- !NilEmpty.usu. now rewrite H. }
  now injection E.
Qed.

Lemma call_id_inj (m n : N) : call_id m = call_id n -> m = n.
Proof.
  unfold call_id. intros H. apply show_inj.
  cbv [String.append] in H. congruence.
Qed.

(** The counter freezes at 2^53: from there on every id is the same. *)
Lemma post_incr_stuck : post_incr MAX_EXACT = MAX_EXACT.
Proof. reflexivity. Qed.

(** ** What the primitive operations leave alone *)

Lemma ocl_refl (w : State) : only_calls_and_listeners w w.
Proof. unfold only_calls_and_listeners. tauto. Qed.

Lemma ocl_trans (w1 w2 w3 : State) :
  only_calls_and_listeners w1 w2 -> only_calls_and_listeners w2 w3 ->
  only_calls_and_listeners w1 w3.
Proof.
  unfold only_calls_and_listeners. intros H1 H2.
  repeat match goal with H : _ /\ _ |- _ => destruct H end.
  repeat split; congruence.
Qed.

Lemma fmap_insert_same {A B : Type} (f : A -> B) (l : list A) (i : nat) (x y : A) :
  l !! i = Some x -> f y = f x -> f <$> <[i := y]> l = f <$> l.
Proof.
  intros Hl Hf. rewrite list_fmap_insert, Hf.
  apply list_insert_id. rewrite list_lookup_fmap, Hl. reflexivity.
Qed.

Lemma on_socket_listeners (s : nat) (g : list nat -> list nat) (w : State) :
  only_calls_and_listeners w
    (on_socket s (fun k => with_listeners (g (listeners k)) k) w) /\
  calls (on_socket s (fun k => with_listeners (g (listeners k)) k) w) = calls w.
Proof.
  unfold on_socket. destruct (sockets w !! s) as [k|] eqn:E.
  - split; [|reflexivity]. unfold only_calls_and_listeners. simpl.
    repeat split; apply (fmap_insert_same _ _ _ k); auto.
  - split; [apply ocl_refl | reflexivity].
Qed.

Lemma off_ocl (h : nat) (w : State) : only_calls_and_listeners w (off h w).
Proof.
  unfold off. destruct (ws w); [|apply ocl_refl].
  apply (on_socket_listeners n (drop_listener h) w).
Qed.

Lemma off_calls (h : nat) (w : State) : calls (off h w) = calls w.
Proof.
  unfold off. destruct (ws w); [|reflexivity].
  apply (on_socket_listeners n (drop_listener h) w).
Qed.

Lemma settle_ocl (k : nat) (o : Settlement) (w : State) :
  only_calls_and_listeners w (settle k o w).
Proof.
  unfold settle. destruct (calls w !! k) as [c|]; [|apply ocl_refl].
  destruct (outcome c); try apply ocl_refl.
  unfold only_calls_and_listeners. simpl. tauto.
Qed.

Lemma settle_lookup (k : nat) (o : Settlement) (w : State) (c : Call) :
  calls w !! k = Some c ->
  calls (settle k o w) !! k =
    Some (match outcome c with
          | Pending => {| corr := corr c; outcome := o |}
          | _ => c
          end).
Proof.
  intros H. unfold settle. rewrite H.
  destruct (outcome c); simpl; auto.
  apply list_lookup_insert_eq. eapply lookup_lt_Some; eauto.
Qed.

Lemma settle_lookup_ne (k k' : nat) (o : Settlement) (w : State) :
  k <> k' -> calls (settle k o w) !! k' = calls w !! k'.
Proof.
  intros H. unfold settle. destruct (calls w !! k) as [c|]; [|reflexivity].
  destruct (outcome c); simpl; auto.
  apply list_lookup_insert_ne; auto.
Qed.

Lemma settle_length (k : nat) (o : Settlement) (w : State) :
  length (calls (settle k o w)) = length (calls w).
Proof.
  unfold settle. destruct (calls w !! k) as [c|]; [|reflexivity].
  destruct (outcome c); simpl; auto. apply length_insert.
Qed.

Lemma ws_is_open_ocl (w w' : State) :
  only_calls_and_listeners w w' -> ws_is_open w' = ws_is_open w.
Proof.
  unfold only_calls_and_listeners, ws_is_open. intros H.
  repeat match goal with H : _ /\ _ |- _ => destruct H end.
  assert (forall s, readyState <$> (sockets w' !! s) = readyState <$> (sockets w !! s)) as E.
  { intros s. rewrite <- !list_lookup_fmap. congruence. }
  replace (ws w') with (ws w) by congruence.
  destruct (ws w) as [s|]; [|reflexivity].
  specialize (E s).
  destruct (sockets w' !! s), (sockets w !! s); simpl in E; congruence.
Qed.

(** ** The listeners of pending calls *)

Lemma call_handler_verdict (k : nat) (id : string) (data : Frame) (w : State) :
  call_handler k id data w =
    match verdict id data with
    | Some o => settle k o (off k w)
    | None => w
    end.
Proof.
  unfold call_handler, verdict, answers, resolve, reject.
  destruct data as [|j]; [reflexivity|].
  destruct (nullish j); [reflexivity|].
  destruct (is_str (prop "type" j) "res" && is_str (prop "id" j) id); [|reflexivity].
  destruct (truthy (prop "ok" j)); reflexivity.
Qed.

Lemma verdict_not_pending (id : string) (data : Frame) :
  verdict id data <> Some Pending.
Proof.
  unfold verdict. destruct data as [|j]; [discriminate|].
  destruct (nullish j); [discriminate|].
  destruct (answers id j); [|discriminate].
  destruct (truthy (prop "ok" j)); discriminate.
Qed.

Lemma run_listener_ocl (data : Frame) (w : State) (k : nat) :
  only_calls_and_listeners w (run_listener data w k).
Proof.
  unfold run_listener. destruct (calls w !! k) as [c|]; [|apply ocl_refl].
  destruct (corr c) as [id|]; [|apply ocl_refl].
  rewrite call_handler_verdict. destruct (verdict id data); [|apply ocl_refl].
  eapply ocl_trans; [apply off_ocl | apply settle_ocl].
Qed.

Lemma fold_listeners_ocl (data : Frame) (ls : list nat) (w : State) :
  only_calls_and_listeners w (fold_left (run_listener data) ls w).
Proof.
  revert w. induction ls as [|h ls IH]; intros w; simpl; [apply ocl_refl|].
  eapply ocl_trans; [apply run_listener_ocl | apply IH].
Qed.

(** The promise of listener [k] after it ran. *)
Lemma run_listener_self (data : Frame) (w : State) (k : nat) (c : Call) :
  calls w !! k = Some c ->
  calls (run_listener data w k) !! k =
    Some (match corr c, outcome c with
          | Some id, Pending =>
              match verdict id data with
              | Some o => {| corr := corr c; outcome := o |}
              | None => c
              end
          | _, _ => c
          end).
Proof.
  intros H. unfold run_listener. rewrite H.
  destruct c as [[id|] oc]; simpl.
  - rewrite call_handler_verdict. destruct (verdict id data) as [o|].
    + rewrite (settle_lookup k o (off k w) _) by (rewrite off_calls; exact H).
      destruct oc; reflexivity.
    + rewrite H. destruct oc; reflexivity.
  - now rewrite H.
Qed.

Lemma run_listener_other (data : Frame) (w : State) (k k' : nat) :
  k <> k' -> calls (run_listener data w k) !! k' = calls w !! k'.
Proof.
  intros H. unfold run_listener. destruct (calls w !! k) as [c|]; [|reflexivity].
  destruct (corr c) as [id|]; [|reflexivity].
  rewrite call_handler_verdict. destruct (verdict id data) as [o|]; [|reflexivity].
  rewrite settle_lookup_ne by assumption. now rewrite off_calls.
Qed.

Lemma evolves_refl (data : Frame) (cs : list Call) : evolves data cs cs.
Proof. intros k. now left. Qed.

Lemma evolves_trans (data : Frame) (cs1 cs2 cs3 : list Call) :
  evolves data cs1 cs2 -> evolves data cs2 cs3 -> evolves data cs1 cs3.
Proof.
  intros H12 H23 k.
  destruct (H12 k) as [E12 | (id & o & Ha & Hv & Hb)];
    destruct (H23 k) as [E23 | (id' & o' & Ha' & Hv' & Hb')].
  - left. congruence.
  - right. exists id', o'. rewrite <- E12. auto.
  - right. exists id, o. rewrite E23. auto.
  - exfalso. rewrite Hb in Ha'. injection Ha' as -> ->.
    now apply (verdict_not_pending id' data).
Qed.

Lemma run_listener_evolves (data : Frame) (w : State) (k : nat) :
  evolves data (calls w) (calls (run_listener data w k)).
Proof.
  intros k'. destruct (decide (k = k')) as [<-|Hne].
  - destruct (calls w !! k) as [c|] eqn:E.
    + rewrite (run_listener_self data w k c E).
      destruct c as [[id|] o]; simpl; [|now left].
      destruct o; try now left.
      destruct (verdict id data) as [o|] eqn:Ev; [|now left].
      right. exists id, o. auto.
    + left. unfold run_listener. now rewrite E.
  - left. now apply run_listener_other.
Qed.

Lemma fold_listeners_evolves (data : Frame) (ls : list nat) (w : State) :
  evolves data (calls w) (calls (fold_left (run_listener data) ls w)).
Proof.
  revert w. induction ls as [|h ls IH]; intros w; simpl; [apply evolves_refl|].
  eapply evolves_trans; [apply run_listener_evolves | apply IH].
Qed.

(** A promise that is settled is out of reach of every frame. *)
Lemma evolves_settled (data : Frame) (cs cs' : list Call) (k : nat) (c : Call) :
  evolves data cs cs' -> cs !! k = Some c -> outcome c <> Pending ->
  cs' !! k = Some c.
Proof.
  intros H Hc Ho. destruct (H k) as [E | (id & o & Ha & _)]; [congruence|].
  rewrite Ha in Hc. injection Hc as <-. now destruct Ho.
Qed.

(** Every listener in the list has run: a pending promise among them
    has the verdict of the frame. *)
Lemma fold_listeners_settles (data : Frame) (ls : list nat) (w : State)
      (k : nat) (id : string) (o : Settlement) :
  In k ls ->
  calls w !! k = Some {| corr := Some id; outcome := Pending |} ->
  verdict id data = Some o ->
  calls (fold_left (run_listener data) ls w) !! k =
    Some {| corr := Some id; outcome := o |}.
Proof.
  revert w. induction ls as [|h ls IH]; intros w Hin Hc Hv; [destruct Hin|].
  simpl. destruct (decide (h = k)) as [->|Hne].
  - apply (evolves_settled data (calls (run_listener data w k))).
    + apply fold_listeners_evolves.
    + rewrite (run_listener_self data w k _ Hc). simpl. now rewrite Hv.
    + simpl. intros ->. now apply (verdict_not_pending id data).
  - destruct Hin as [->|Hin]; [now destruct Hne|].
    apply IH; auto. now rewrite run_listener_other.
Qed.

(** A promise whose listener is not in the list is untouched. *)
Lemma fold_listeners_other (data : Frame) (ls : list nat) (w : State) (k : nat) :
  ~ In k ls ->
  calls (fold_left (run_listener data) ls w) !! k = calls w !! k.
Proof.
  revert w. induction ls as [|h ls IH]; intros w Hin; simpl; [reflexivity|].
  rewrite IH by (intros H; apply Hin; now right).
  apply run_listener_other. intros ->. apply Hin. now left.
Qed.

Lemma fold_listeners_length (data : Frame) (ls : list nat) (w : State) :
  length (calls (fold_left (run_listener data) ls w)) = length (calls w).
Proof.
  revert w. induction ls as [|h ls IH]; intros w; simpl; [reflexivity|].
  rewrite IH. unfold run_listener.
  destruct (calls w !! h) as [c|]; [|reflexivity].
  destruct (corr c) as [id|]; [|reflexivity].
  rewrite call_handler_verdict. destruct (verdict id data); [|reflexivity].
  now rewrite settle_length, off_calls.
Qed.

(** ** Frames, by what the connection's listener does with them *)

Lemma is_str_res_not_event (j : Json) :
  is_str j "res" = true -> is_str j "event" = false.
Proof.
  destruct j; simpl; try discriminate.
  intros H. apply String.eqb_eq in H. now subst.
Qed.

Lemma is_str_event_not_res (j : Json) :
  is_str j "event" = true -> is_str j "res" = false.
Proof.
  destruct j; simpl; try discriminate.
  intros H. apply String.eqb_eq in H. now subst.
Qed.

Lemma step_message_inv (w w' : State) (s : nat) (data : Frame) :
  step w (WsMessage s data) = Some w' ->
  exists k, sockets w !! s = Some k /\
            (readyState k = OPEN \/ readyState k = CLOSING) /\
            w' = deliver k data w.
Proof.
  simpl. destruct (sockets w !! s) as [k|]; [|discriminate].
  destruct (readyState k) eqn:E; try discriminate;
    intros [= <-]; exists k; auto.
Qed.

Lemma on_message_malformed (data : Frame) (w : State) :
  malformed data = true -> on_message data w = log LogParseFailure w.
Proof.
  destruct data as [|j]; simpl; [reflexivity|]. now intros ->.
Qed.

Lemma on_message_challenge (j : Json) (w : State) :
  is_challenge j = true ->
  on_message (Text j) w =
    sendRequest "connect"
      (connect_params w (challenge_nonce (prop "payload" j)))
      (log LogChallenge
         (log (LogMessage (prop "type" j)
                          (or_else (prop "event" j) (prop "method" j))) w)).
Proof.
  unfold is_challenge. intros H.
  apply andb_prop in H as [H He]. apply andb_prop in H as [Hn Ht].
  apply negb_true_iff in Hn.
  unfold on_message, handle_message. now rewrite Hn, Ht, He.
Qed.

Lemma on_message_connect_reply (j : Json) (w : State) :
  is_connect_reply j = true ->
  on_message (Text j) w =
    let w1 := log (LogMessage (prop "type" j)
                              (or_else (prop "event" j) (prop "method" j))) w in
    if truthy (prop "ok" j) then
      emit (JStr "connected") NoArg (set_connected true (log LogHandshakeOk w1))
    else
      close_current (log (LogHandshakeFailed (prop "error" j)) w1).
Proof.
  unfold is_connect_reply. intros H.
  apply andb_prop in H as [H Hm]. apply andb_prop in H as [Hn Ht].
  apply negb_true_iff in Hn.
  unfold on_message, handle_message.
  now rewrite Hn, (is_str_res_not_event _ Ht), Ht, Hm.
Qed.

(** The listeners of calls ignore every frame that is an event. *)
Lemma verdict_event (id : string) (j : Json) :
  nullish j = false -> is_str (prop "type" j) "event" = true ->
  verdict id (Text j) = None.
Proof.
  intros Hn Ht. unfold verdict, answers.
  now rewrite Hn, (is_str_event_not_res _ Ht).
Qed.

Lemma fold_listeners_deaf (data : Frame) (ls : list nat) (w : State) :
  (forall id, verdict id data = None) ->
  fold_left (run_listener data) ls w = w.
Proof.
  intros Hv. induction ls as [|h ls IH]; simpl; [reflexivity|].
  replace (run_listener data w h) with w; [exact IH|].
  unfold run_listener. destruct (calls w !! h) as [c|]; [|reflexivity].
  destruct (corr c) as [id|]; [|reflexivity].
  now rewrite call_handler_verdict, Hv.
Qed.

Lemma deliver_challenge (k : WebSocket) (j : Json) (w : State) :
  is_challenge j = true -> deliver k (Text j) w = on_message (Text j) w.
Proof.
  intros H. unfold deliver. apply fold_listeners_deaf. intros id.
  unfold is_challenge in H.
  apply andb_prop in H as [H _]. apply andb_prop in H as [Hn Ht].
  apply negb_true_iff in Hn. now apply verdict_event.
Qed.

(** ** Sample frames and the handshake scenario of the specification *)

Example handshake_scenario :
  observe (fun w => (isConnected w, emitted w, sent <$> sockets w)) handshake =
    Some (true,
          [mkEmission (JStr "connected") NoArg],
          [[mkRequest "req-0" "connect" (connect_params fresh (JStr "abc"))]]).
Proof. vm_compute. reflexivity. Qed.

Example not_connected_scenario :
  observe (fun w => (calls w, sockets w)) [CallReq "cron.list" (JObj [])] =
    Some ([{| corr := None; outcome := Rejected NotConnected |}], []).
Proof. vm_compute. reflexivity. Qed.

Example out_of_order_scenario :
  observe calls
    (handshake ++
     [CallReq "cron.list" (JObj []); CallReq "agent.send" (JObj []);
      WsMessage 0 (Text (response "call-2" (JStr "second")));
      WsMessage 0 (Text (response "call-1" (JStr "first")))]) =
    Some [{| corr := Some "call-1"; outcome := Resolved (JStr "first") |};
          {| corr := Some "call-2"; outcome := Resolved (JStr "second") |}]%string.
Proof. vm_compute. reflexivity. Qed.

(** ** C1: transport close *)

(** C1 (as the code has it).  When a socket closes, the client clears
    [connected], so [isConnected()] is false, and emits [disconnected];
    the promise store is left exactly as it was, so a call that was
    pending is still pending after the close, and the timers armed
    before the close, among them the timeouts of pending calls, are
    still there. *)
Theorem C1_close_clears_connected_keeps_calls (w w' : State) (s : nat) :
  step w (WsClose s) = Some w' ->
  connected w' = false /\
  isConnected w' = false /\
  emitted w' = emitted w ++ [mkEmission (JStr "disconnected") NoArg] /\
  calls w' = calls w /\
  (forall t tm, timers w !! t = Some tm -> timers w' !! t = Some tm).
Proof.
  simpl. destruct (sockets w !! s) as [k|] eqn:Es; [|discriminate].
  assert (on_socket s (with_readyState CLOSED) w =
          set_sockets (<[s := with_readyState CLOSED k]> (sockets w)) w) as E
    by (unfold on_socket; now rewrite Es).
  rewrite E.
  destruct (readyState k); try discriminate; intros [= <-];
    unfold isConnected, on_close, scheduleReconnect;
    destruct (reconnectTimer w) eqn:Er; simpl; rewrite Er; simpl;
    repeat split; auto; intros t tm Ht; now apply lookup_app_l_Some.
Qed.

Lemma C1_close_clears_connected_keeps_calls_witness :
  step one_call_pending (WsClose 0) =
    Some (on_close (on_socket 0 (with_readyState CLOSED) one_call_pending)) /\
  calls (on_close (on_socket 0 (with_readyState CLOSED) one_call_pending)) =
    calls one_call_pending.
Proof.
  split; [vm_compute; reflexivity|].
  apply (C1_close_clears_connected_keeps_calls one_call_pending _ 0).
  vm_compute; reflexivity.
Defined.

(** C1, counterexample: a call is in flight when the socket closes;
    after the close its promise is still pending, not rejected. *)
Lemma C1_pending_call_not_rejected_at_close :
  observe calls (handshake ++ [CallReq "cron.list" (JObj []); WsClose 0]) =
    Some [{| corr := Some "call-1"; outcome := Pending |}]%string.
Proof. vm_compute. reflexivity. Qed.

(** ** C5: malformed frames *)

Lemma verdict_malformed (id : string) (data : Frame) :
  malformed data = true -> verdict id data = Some (Rejected ParseError).
Proof.
  destruct data as [|j]; simpl; [reflexivity|]. now intros ->.
Qed.

(** C5 (as the code has it).  A frame that does not parse is logged by
    the connection's listener and changes nothing of the connection:
    not [this.ws], not the state of any socket, not [connected], no
    timer, no notification, nothing sent.  The listeners of the calls
    registered on that socket catch the same failure: every call that
    was pending there is rejected with the parse error, and every other
    promise is untouched. *)
Theorem C5_malformed_frame_rejects_pending_calls
        (w w' : State) (s : nat) (k : WebSocket) (data : Frame) :
  malformed data = true ->
  sockets w !! s = Some k ->
  step w (WsMessage s data) = Some w' ->
  console w' = console w ++ [LogParseFailure] /\
  ws w' = ws w /\ connected w' = connected w /\
  reconnectTimer w' = reconnectTimer w /\ timers w' = timers w /\
  emitted w' = emitted w /\
  readyState <$> sockets w' = readyState <$> sockets w /\
  sent <$> sockets w' = sent <$> sockets w /\
  (forall h id, In h (listeners k) ->
     calls w !! h = Some {| corr := Some id; outcome := Pending |} ->
     calls w' !! h = Some {| corr := Some id; outcome := Rejected ParseError |}) /\
  (forall h, ~ In h (listeners k) -> calls w' !! h = calls w !! h).
Proof.
  intros Hm Hk Hs.
  apply step_message_inv in Hs as (k' & Hk' & _ & ->).
  rewrite Hk in Hk'. injection Hk' as <-.
  unfold deliver. rewrite (on_message_malformed data w Hm).
  pose proof (fold_listeners_ocl data (listeners k) (log LogParseFailure w)) as H.
  unfold only_calls_and_listeners in H. simpl in H.
  repeat match goal with H : _ /\ _ |- _ => destruct H end.
  repeat split; try assumption.
  - intros h id Hin Hc.
    apply fold_listeners_settles; auto. now apply verdict_malformed.
  - intros h Hin. now rewrite fold_listeners_other.
Qed.

Lemma C5_malformed_frame_rejects_pending_calls_witness :
  malformed Garbled = true /\
  sockets one_call_pending !! 0%nat =
    Some {| readyState := OPEN; listeners := [0%nat];
            sent := [mkRequest "req-0" "connect" (connect_params fresh (JStr "abc"));
                     mkRequest "call-1" "cron.list" (JObj [])] |} /\
  step one_call_pending (WsMessage 0 Garbled) =
    Some (run_listener Garbled (on_message Garbled one_call_pending) 0) /\
  calls (run_listener Garbled (on_message Garbled one_call_pending) 0) !! 0%nat =
    Some {| corr := Some "call-1"%string; outcome := Rejected ParseError |}.
Proof.
  split; [reflexivity|]. split; [vm_compute; reflexivity|].
  split; [vm_compute; reflexivity|].
  eapply (C5_malformed_frame_rejects_pending_calls one_call_pending _ 0 _ Garbled).
  - reflexivity.
  - vm_compute; reflexivity.
  - vm_compute; reflexivity.
  - now left.
  - vm_compute; reflexivity.
Defined.

(** C5, counterexample: the handshake is done and a call is pending
    when a frame that is not JSON arrives; the promise of the call is
    rejected by it. *)
Lemma C5_garbled_frame_settles_pending_call :
  observe calls (handshake ++ [CallReq "cron.list" (JObj []); WsMessage 0 Garbled]) =
    Some [{| corr := Some "call-1"; outcome := Rejected ParseError |}]%string.
Proof. vm_compute. reflexivity. Qed.

(** ** The reply to the handshake request, and C8 *)

Lemma step_close_connected (w w' : State) (s : nat) :
  step w (WsClose s) = Some w' -> connected w' = false.
Proof.
  simpl. destruct (sockets w !! s) as [k|]; [|discriminate].
  destruct (readyState k); try discriminate; intros [= <-];
    unfold on_close, scheduleReconnect; simpl;
    destruct (reconnectTimer _); reflexivity.
Qed.

Lemma closing_not_open (r : ReadyState) : is_OPEN (closing r) = false.
Proof. now destruct r. Qed.

Lemma close_current_fields (w : State) :
  ws (close_current w) = ws w /\
  connected (close_current w) = connected w /\
  emitted (close_current w) = emitted w /\
  console (close_current w) = console w /\
  calls (close_current w) = calls w /\
  timers (close_current w) = timers w /\
  ws_is_open (close_current w) = false /\
  (forall s0 k0, ws w = Some s0 -> sockets w !! s0 = Some k0 ->
     readyState <$> (sockets (close_current w) !! s0) =
       Some (closing (readyState k0))).
Proof.
  unfold close_current, ws_is_open.
  destruct (ws w) as [s|] eqn:Ew.
  - unfold ws_close, on_socket. destruct (sockets w !! s) as [k|] eqn:Ek; simpl.
    + rewrite Ew.
      assert (s < length (sockets w))%nat as Hlt by (eapply lookup_lt_Some; eauto).
      rewrite list_lookup_insert_eq by assumption. simpl.
      repeat split; auto using closing_not_open.
      intros s0 k0 [= <-] Hk0. rewrite list_lookup_insert_eq by assumption.
      simpl. congruence.
    + rewrite Ew, Ek. repeat split; auto. intros s0 k0 [= <-]. congruence.
  - rewrite Ew. repeat split; auto. discriminate.
Qed.




(** ** C9 and C10: answering the challenge *)

Lemma device_nonce (w : State) (nonce : Json) :
  prop "nonce" (prop "device" (connect_params w nonce)) = nonce.
Proof. unfold connect_params. simpl. now destruct nonce. Qed.

(** C9 (as the code has it).  An event named [connect.challenge] is
    never forwarded: nothing is emitted for it and no promise changes.
    If the current socket is open, exactly one request is sent on it,
    with method [connect] and the next id of the counter, whose
    [device.nonce] is the challenge's [nonce] when that is truthy and
    the empty string otherwise; if the current socket is not open (or
    there is none), nothing is sent on any socket. *)
Theorem C9_challenge_consumed_and_answered_if_open
        (w w' : State) (s : nat) (j : Json) :
  is_challenge j = true ->
  step w (WsMessage s (Text j)) = Some w' ->
  emitted w' = emitted w /\
  calls w' = calls w /\
  (ws_is_open w = true ->
     exists s0 k0 r,
       ws w = Some s0 /\ sockets w !! s0 = Some k0 /\
       sockets w' = <[s0 := with_sent (sent k0 ++ [r]) k0]> (sockets w) /\
       rq_id r = req_id (requestId w) /\
       rq_method r = "connect"%string /\
       prop "nonce" (prop "device" (rq_params r)) =
         (if truthy (opt_prop "nonce" (prop "payload" j))
          then opt_prop "nonce" (prop "payload" j) else JStr "")) /\
  (ws_is_open w = false -> sockets w' = sockets w).
Proof.
  intros Hc Hs.
  apply step_message_inv in Hs as (k & Hk & _ & ->).
  rewrite (deliver_challenge k j w Hc), (on_message_challenge j w Hc).
  unfold sendRequest.
  match goal with |- context [ws_is_open ?w1] =>
    change (ws_is_open w1) with (ws_is_open w) end.
  destruct (ws_is_open w) eqn:Eo.
  - unfold ws_is_open in Eo. simpl.
    destruct (ws w) as [s0|] eqn:Ew; [|discriminate].
    destruct (sockets w !! s0) as [k0|] eqn:Ek; [|discriminate].
    unfold ws_send, on_socket. simpl. rewrite Ek. simpl.
    repeat split; auto; [|discriminate].
    intros _.
    exists s0, k0,
      (mkRequest (req_id (requestId w)) "connect"
                 (connect_params w (challenge_nonce (prop "payload" j)))).
    repeat split; auto.
  - simpl. repeat split; auto. discriminate.
Qed.

Lemma C9_challenge_consumed_and_answered_if_open_witness :
  is_challenge (challenge "abc") = true /\
  step awaiting_challenge (WsMessage 0 (Text (challenge "abc"))) =
    Some (on_message (Text (challenge "abc")) awaiting_challenge) /\
  emitted (on_message (Text (challenge "abc")) awaiting_challenge) =
    emitted awaiting_challenge.
Proof.
  split; [reflexivity|]. split; [vm_compute; reflexivity|].
  eapply (C9_challenge_consumed_and_answered_if_open
            awaiting_challenge _ 0 (challenge "abc"));
    vm_compute; reflexivity.
Defined.

(** C9, counterexample: a challenge arrives and no [connect] request
    is sent for it.  First input: [connect()] is called twice before
    the first socket opens, so [this.ws] is the second socket, still
    connecting, when the first one opens and delivers the challenge.
    Second input: [disconnect()] was called, the socket is closing, and
    a challenge that was on its way arrives. *)
Lemma C9_challenge_unanswered_when_current_socket_not_open :
  observe (fun w => (ws w, readyState <$> sockets w, sent <$> sockets w))
          [Connect; Connect; WsOpen 0; WsMessage 0 (Text (challenge "abc"))] =
    Some (Some 1%nat, [OPEN; CONNECTING], [[]; []]) /\
  observe (fun w => (ws w, readyState <$> sockets w, sent <$> sockets w))
          [Connect; WsOpen 0; Disconnect; WsMessage 0 (Text (challenge "abc"))] =
    Some (None, [CLOSING], [[]]).
Proof. split; vm_compute; reflexivity. Qed.

(** C10.  When the current socket is not open, [sendRequest] returns
    the state it was given: nothing is sent, the counter is not
    advanced, nothing is emitted or thrown.  A challenge that arrives
    then leaves two console lines and nothing else: no request on any
    socket, no notification, no timer, no change of the connection. *)
Theorem C10_sendRequest_silent_when_not_open (w : State) :
  ws_is_open w = false ->
  (forall method params, sendRequest method params w = w) /\
  (forall s j w',
     is_challenge j = true ->
     step w (WsMessage s (Text j)) = Some w' ->
     w' = log LogChallenge
            (log (LogMessage (prop "type" j)
                             (or_else (prop "event" j) (prop "method" j))) w) /\
     sockets w' = sockets w /\ emitted w' = emitted w /\
     timers w' = timers w /\ requestId w' = requestId w /\
     calls w' = calls w /\ ws w' = ws w /\ connected w' = connected w /\
     reconnectTimer w' = reconnectTimer w).
Proof.
  intros Ho. split.
  - intros method params. unfold sendRequest. now rewrite Ho.
  - intros s j w' Hc Hs.
    apply step_message_inv in Hs as (k & Hk & _ & ->).
    rewrite (deliver_challenge k j w Hc), (on_message_challenge j w Hc).
    unfold sendRequest.
    match goal with |- context [ws_is_open ?w1] =>
      change (ws_is_open w1) with (ws_is_open w) end.
    rewrite Ho. simpl. repeat split; reflexivity.
Qed.

Lemma C10_sendRequest_silent_when_not_open_witness :
  ws_is_open disconnected_closing = false /\
  sendRequest "connect" (connect_params disconnected_closing (JStr "abc"))
              disconnected_closing = disconnected_closing.
Proof.
  split; [reflexivity|].
  apply (C10_sendRequest_silent_when_not_open disconnected_closing).
  reflexivity.
Defined.

(** ** What one event does to the promises, the timers and the counter *)

Ltac open_ops :=
  unfold disconnect, connect, on_open, on_error, on_close, scheduleReconnect,
    on_message, handle_message, sendRequest, close_current, ws_send, ws_close,
    ws_on_message, clearTimeout, setTimeout, on_socket in *.

Ltac by_cases := open_ops; repeat case_match; simpl in *; repeat split; auto.

(** The connection's listener never touches a promise or a timer; the
    only thing it may do to the counter is take one id from it. *)
Lemma on_message_summary (data : Frame) (w : State) :
  calls (on_message data w) = calls w /\
  timers (on_message data w) = timers w /\
  reconnectTimer (on_message data w) = reconnectTimer w /\
  now (on_message data w) = now w /\
  ws (on_message data w) = ws w /\
  length (sockets (on_message data w)) = length (sockets w) /\
  (requestId (on_message data w) = requestId w \/
   requestId (on_message data w) = post_incr (requestId w)).
Proof.
  by_cases; apply length_insert.
Qed.

Lemma deliver_summary (k : WebSocket) (data : Frame) (w : State) :
  evolves data (calls w) (calls (deliver k data w)) /\
  length (calls (deliver k data w)) = length (calls w) /\
  timers (deliver k data w) = timers w /\
  reconnectTimer (deliver k data w) = reconnectTimer w /\
  now (deliver k data w) = now w /\
  ws (deliver k data w) = ws w /\
  length (sockets (deliver k data w)) = length (sockets w) /\
  (requestId (deliver k data w) = requestId w \/
   requestId (deliver k data w) = post_incr (requestId w)).
Proof.
  unfold deliver.
  destruct (on_message_summary data w) as (M1 & M2 & M3 & M4 & M5 & M6 & M7).
  pose proof (fold_listeners_ocl data (listeners k) (on_message data w)) as H.
  destruct H as (Hws & Hrt & Hcn & Htk & Hrq & Hpl & Hnw & Htm & Hem & Hco & Hrs & Hsn).
  pose proof (fold_listeners_evolves data (listeners k) (on_message data w)) as Hev.
  rewrite M1 in Hev.
  split; [exact Hev|].
  split; [now rewrite fold_listeners_length, M1|].
  split; [congruence|]. split; [congruence|]. split; [congruence|].
  split; [congruence|].
  split.
  - rewrite <- M6. apply (f_equal length) in Hrs. now rewrite !length_fmap in Hrs.
  - rewrite Hrq. exact M7.
Qed.

Lemma connect_summary (w : State) :
  calls (connect w) = calls w /\ timers (connect w) = timers w /\
  reconnectTimer (connect w) = reconnectTimer w /\
  requestId (connect w) = requestId w /\ now (connect w) = now w /\
  connected (connect w) = connected w.
Proof. by_cases. Qed.

Lemma log_connect_summary (l : LogLine) (w : State) :
  calls (connect (log l w)) = calls w /\ timers (connect (log l w)) = timers w /\
  reconnectTimer (connect (log l w)) = reconnectTimer w /\
  requestId (connect (log l w)) = requestId w.
Proof. by_cases. Qed.

Lemma disconnect_summary (w : State) :
  calls (disconnect w) = calls w /\ requestId (disconnect w) = requestId w /\
  now (disconnect w) = now w /\
  reconnectTimer (disconnect w) = None /\ ws (disconnect w) = None /\
  connected (disconnect w) = false /\
  timers (disconnect w) =
    match reconnectTimer w with
    | Some t => timers (clearTimeout t w)
    | None => timers w
    end.
Proof. by_cases. Qed.

Lemma call_summary (method : string) (params : Json) (w : State) :
  reconnectTimer (call method params w) = reconnectTimer w /\
  now (call method params w) = now w /\
  if isConnected w then
    calls (call method params w) =
      calls w ++ [{| corr := Some (call_id (requestId w)); outcome := Pending |}] /\
    timers (call method params w) =
      timers w ++ [{| due := now w + callTimeout;
                      callback := CallTimeout (length (calls w));
                      status := Armed |}] /\
    requestId (call method params w) = post_incr (requestId w)
  else
    calls (call method params w) =
      calls w ++ [{| corr := None; outcome := Rejected NotConnected |}] /\
    timers (call method params w) = timers w /\
    requestId (call method params w) = requestId w.
Proof.
  unfold call, isConnected, ws_is_open.
  destruct (connected w); simpl; [|auto].
  destruct (ws w) as [s|]; simpl; [|auto].
  destruct (sockets w !! s) as [k|] eqn:E; simpl; [|auto].
  destruct (is_OPEN (readyState k)); simpl; [|auto].
  by_cases.
Qed.

Lemma close_summary (s : nat) (f : WebSocket -> WebSocket) (w : State) :
  calls (on_close (on_socket s f w)) = calls w /\
  requestId (on_close (on_socket s f w)) = requestId w /\
  now (on_close (on_socket s f w)) = now w /\
  match reconnectTimer w with
  | Some t =>
      reconnectTimer (on_close (on_socket s f w)) = Some t /\
      timers (on_close (on_socket s f w)) = timers w
  | None =>
      reconnectTimer (on_close (on_socket s f w)) = Some (length (timers w)) /\
      timers (on_close (on_socket s f w)) =
        timers w ++ [{| due := now w + reconnectDelay; callback := Reconnect;
                        status := Armed |}]
  end.
Proof. by_cases; congruence. Qed.

Lemma timeout_summary (k : nat) (w : State) :
  timers (reject k Timeout (off k w)) = timers w /\
  reconnectTimer (reject k Timeout (off k w)) = reconnectTimer w /\
  requestId (reject k Timeout (off k w)) = requestId w /\
  now (reject k Timeout (off k w)) = now w /\
  length (calls (reject k Timeout (off k w))) = length (calls w) /\
  (forall k', k <> k' -> calls (reject k Timeout (off k w)) !! k' = calls w !! k') /\
  (forall c, calls w !! k = Some c ->
     calls (reject k Timeout (off k w)) !! k =
       Some (match outcome c with
             | Pending => {| corr := corr c; outcome := Rejected Timeout |}
             | _ => c
             end)).
Proof.
  unfold reject.
  pose proof (ocl_trans _ _ _ (off_ocl k w) (settle_ocl k (Rejected Timeout) (off k w))) as H.
  destruct H as (Hws & Hrt & Hcn & Htk & Hrq & Hpl & Hnw & Htm & Hem & Hco & Hrs & Hsn).
  repeat split; auto.
  - now rewrite settle_length, off_calls.
  - intros k' Hne. now rewrite settle_lookup_ne, off_calls.
  - intros c Hc. apply settle_lookup. now rewrite off_calls.
Qed.

Lemma step_fire_inv (w w' : State) (t : nat) :
  step w (Fire t) = Some w' ->
  exists tm, timers w !! t = Some tm /\ status tm = Armed /\ due tm <= now w /\
             w' = run_callback (callback tm)
                    (set_timers (<[t := with_status Fired tm]> (timers w)) w).
Proof.
  simpl. destruct (timers w !! t) as [tm|]; [|discriminate].
  destruct (status tm) eqn:Es; try discriminate.
  destruct (N.leb_spec (due tm) (now w)); [|discriminate].
  intros [= <-]. exists tm. auto.
Qed.

Lemma step_close_inv (w w' : State) (s : nat) :
  step w (WsClose s) = Some w' ->
  w' = on_close (on_socket s (with_readyState CLOSED) w).
Proof.
  simpl. destruct (sockets w !! s) as [k|]; [|discriminate].
  destruct (readyState k); try discriminate; now intros [= <-].
Qed.

Lemma step_open_inv (w w' : State) (s : nat) :
  step w (WsOpen s) = Some w' ->
  w' = on_open (on_socket s (with_readyState OPEN) w).
Proof.
  simpl. destruct (sockets w !! s) as [k|]; [|discriminate].
  destruct (readyState k); try discriminate; now intros [= <-].
Qed.

Lemma step_error_inv (w w' : State) (s : nat) (err : string) :
  step w (WsError s err) = Some w' -> w' = on_error err w.
Proof.
  simpl. destruct (sockets w !! s) as [k|]; [|discriminate].
  destruct (readyState k); try discriminate; now intros [= <-].
Qed.

Lemma open_summary (s : nat) (f : WebSocket -> WebSocket) (w : State) :
  calls (on_open (on_socket s f w)) = calls w /\
  timers (on_open (on_socket s f w)) = timers w /\
  reconnectTimer (on_open (on_socket s f w)) = reconnectTimer w /\
  requestId (on_open (on_socket s f w)) = requestId w /\
  now (on_open (on_socket s f w)) = now w.
Proof. by_cases. Qed.

(** The promise store after one event: each promise is as it was, or
    it was pending and has just been settled by a frame (with the
    verdict of that frame for its id) or by a timer (with [Timeout]),
    or it is the promise that this [call()] created. *)
Lemma step_calls (w w' : State) (e : Event) :
  step w e = Some w' ->
  (length (calls w) <= length (calls w'))%nat /\
  forall k c', calls w' !! k = Some c' ->
    calls w !! k = Some c' \/
    (exists c, calls w !! k = Some c /\ outcome c = Pending /\ corr c' = corr c /\
       ((exists s data id, e = WsMessage s data /\ corr c = Some id /\
                           verdict id data = Some (outcome c')) \/
        (exists t tm, e = Fire t /\ timers w !! t = Some tm /\
                      callback tm = CallTimeout k /\
                      outcome c' = Rejected Timeout))) \/
    (exists m p, e = CallReq m p /\ k = length (calls w) /\
       ((isConnected w = true /\
         c' = {| corr := Some (call_id (requestId w)); outcome := Pending |}) \/
        (isConnected w = false /\
         c' = {| corr := None; outcome := Rejected NotConnected |}))).
Proof.
  destruct e as [| |m p|s|s data|s err|s|ms|t]; intros Hs.
  - injection Hs as <-. destruct (connect_summary w) as (-> & _). auto.
  - injection Hs as <-. destruct (disconnect_summary w) as (-> & _). auto.
  - injection Hs as <-. destruct (call_summary m p w) as (_ & _ & H).
    destruct (isConnected w) eqn:Ei; destruct H as (-> & _);
      (split; [rewrite length_app; lia|]); intros k c' Hk;
      apply lookup_app_Some in Hk as [Hk | [Hl Hk]]; auto;
      right; right; exists m, p;
      apply list_lookup_singleton_Some in Hk as [Hz <-];
      (split; [reflexivity|]); (split; [lia|]); auto.
  - apply step_open_inv in Hs as ->.
    destruct (open_summary s (with_readyState OPEN) w) as (-> & _). auto.
  - apply step_message_inv in Hs as (k0 & _ & _ & ->).
    destruct (deliver_summary k0 data w) as (Hev & Hl & _).
    split; [lia|]. intros k c' Hk.
    destruct (Hev k) as [E | (id & o & Ha & Hv & Hb)].
    + left. congruence.
    + right; left. rewrite Hb in Hk. injection Hk as <-.
      eexists. split; [exact Ha|]. simpl. repeat split.
      left. exists s, data, id. auto.
  - apply step_error_inv in Hs as ->. auto.
  - apply step_close_inv in Hs as ->.
    destruct (close_summary s (with_readyState CLOSED) w) as (-> & _). auto.
  - injection Hs as <-. auto.
  - apply step_fire_inv in Hs as (tm & Ht & Ha & Hd & ->).
    destruct (callback tm) as [|k0] eqn:Ecb; simpl.
    + destruct (log_connect_summary LogReconnecting
                  (set_timers (<[t:=with_status Fired tm]> (timers w)) w)) as (-> & _).
      auto.
    + destruct (timeout_summary k0
                  (set_timers (<[t:=with_status Fired tm]> (timers w)) w))
        as (_ & _ & _ & _ & Hl & Hne & Heq).
      simpl in *. split; [lia|]. intros k c' Hk.
      destruct (decide (k0 = k)) as [->|Hd'].
      * destruct (calls w !! k) as [c|] eqn:Ec.
        -- rewrite (Heq c eq_refl) in Hk. injection Hk as <-.
           destruct (outcome c) eqn:Eo; auto.
           right; left. exists c. simpl. repeat split; auto.
           right. exists t, tm. auto.
        -- apply lookup_lt_Some in Hk. apply lookup_ge_None in Ec. lia.
      * left. now rewrite <- (Hne k Hd').
Qed.

(** The timers after one event: each timer is as it was, or it was
    armed and has just fired or been cleared by [disconnect()], or it
    is the timer this event armed (the reconnect timer of a close, the
    timeout of a call). *)
Lemma step_timers (w w' : State) (e : Event) :
  step w e = Some w' ->
  (length (timers w) <= length (timers w'))%nat /\
  forall t tm', timers w' !! t = Some tm' ->
    timers w !! t = Some tm' \/
    (exists tm, timers w !! t = Some tm /\ status tm = Armed /\
       due tm' = due tm /\ callback tm' = callback tm /\
       ((e = Fire t /\ status tm' = Fired) \/
        (e = Disconnect /\ reconnectTimer w = Some t /\ status tm' = Cleared))) \/
    (t = length (timers w) /\
       ((exists s, e = WsClose s /\ reconnectTimer w = None /\
          tm' = {| due := now w + reconnectDelay; callback := Reconnect;
                   status := Armed |}) \/
        (exists m p, e = CallReq m p /\ isConnected w = true /\
          tm' = {| due := now w + callTimeout;
                   callback := CallTimeout (length (calls w));
                   status := Armed |}))).
Proof.
  destruct e as [| |m p|s|s data|s err|s|ms|t]; intros Hs.
  - injection Hs as <-. destruct (connect_summary w) as (_ & -> & _). auto.
  - injection Hs as <-.
    destruct (disconnect_summary w) as (_ & _ & _ & _ & _ & _ & ->).
    destruct (reconnectTimer w) as [t0|] eqn:Er; [|auto].
    unfold clearTimeout. destruct (timers w !! t0) as [tm|] eqn:Et; [|auto].
    destruct (status tm) eqn:Es; auto. simpl.
    split; [rewrite length_insert; lia|]. intros t tm' Ht.
    destruct (decide (t0 = t)) as [->|Hne].
    + rewrite list_lookup_insert_eq in Ht by (eapply lookup_lt_Some; eauto).
      injection Ht as <-. right; left. exists tm. simpl. repeat split; auto.
    + rewrite list_lookup_insert_ne in Ht by assumption. auto.
  - injection Hs as <-. destruct (call_summary m p w) as (_ & _ & H).
    destruct (isConnected w) eqn:Ei; destruct H as (_ & -> & _); [|auto].
    split; [rewrite length_app; lia|]. intros t tm' Ht.
    apply lookup_app_Some in Ht as [Ht | [Hl Ht]]; auto.
    apply list_lookup_singleton_Some in Ht as [Hz <-].
    right; right. split; [lia|]. right. exists m, p. auto.
  - apply step_open_inv in Hs as ->.
    destruct (open_summary s (with_readyState OPEN) w) as (_ & -> & _). auto.
  - apply step_message_inv in Hs as (k0 & _ & _ & ->).
    destruct (deliver_summary k0 data w) as (_ & _ & -> & _). auto.
  - apply step_error_inv in Hs as ->. auto.
  - apply step_close_inv in Hs as ->.
    destruct (close_summary s (with_readyState CLOSED) w) as (_ & _ & _ & H).
    destruct (reconnectTimer w) as [t0|] eqn:Er; destruct H as (_ & ->); [auto|].
    split; [rewrite length_app; lia|]. intros t tm' Ht.
    apply lookup_app_Some in Ht as [Ht | [Hl Ht]]; auto.
    apply list_lookup_singleton_Some in Ht as [Hz <-].
    right; right. split; [lia|]. left. exists s. auto.
  - injection Hs as <-. auto.
  - apply step_fire_inv in Hs as (tm & Ht & Ha & Hd & ->).
    assert (timers (run_callback (callback tm)
                      (set_timers (<[t:=with_status Fired tm]> (timers w)) w)) =
            <[t:=with_status Fired tm]> (timers w)) as ->.
    { destruct (callback tm) as [|k0]; simpl.
      - now destruct (log_connect_summary LogReconnecting
                        (set_timers (<[t:=with_status Fired tm]> (timers w)) w))
          as (_ & -> & _).
      - now destruct (timeout_summary k0
                        (set_timers (<[t:=with_status Fired tm]> (timers w)) w))
          as (-> & _). }
    split; [rewrite length_insert; lia|]. intros t1 tm' Ht1.
    destruct (decide (t = t1)) as [<-|Hne].
    + rewrite list_lookup_insert_eq in Ht1 by (eapply lookup_lt_Some; eauto).
      injection Ht1 as <-. right; left. exists tm. simpl. repeat split; auto.
    + rewrite list_lookup_insert_ne in Ht1 by assumption. auto.
Qed.

(** [this.reconnectTimer] after one event. *)
Lemma step_reconnectTimer (w w' : State) (e : Event) :
  step w e = Some w' ->
  reconnectTimer w' =
    match e with
    | Disconnect => None
    | WsClose _ =>
        match reconnectTimer w with
        | Some t => Some t
        | None => Some (length (timers w))
        end
    | _ => reconnectTimer w
    end.
Proof.
  destruct e as [| |m p|s|s data|s err|s|ms|t]; intros Hs.
  - injection Hs as <-. now destruct (connect_summary w) as (_ & _ & -> & _).
  - injection Hs as <-. now destruct (disconnect_summary w) as (_ & _ & _ & -> & _).
  - injection Hs as <-. now destruct (call_summary m p w) as (-> & _).
  - apply step_open_inv in Hs as ->.
    now destruct (open_summary s (with_readyState OPEN) w) as (_ & _ & -> & _).
  - apply step_message_inv in Hs as (k0 & _ & _ & ->).
    now destruct (deliver_summary k0 data w) as (_ & _ & _ & -> & _).
  - apply step_error_inv in Hs as ->. reflexivity.
  - apply step_close_inv in Hs as ->.
    destruct (close_summary s (with_readyState CLOSED) w) as (_ & _ & _ & H).
    destruct (reconnectTimer w); now destruct H as (-> & _).
  - injection Hs as <-. reflexivity.
  - apply step_fire_inv in Hs as (tm & Ht & Ha & Hd & ->).
    destruct (callback tm) as [|k0]; simpl.
    + now destruct (log_connect_summary LogReconnecting
                      (set_timers (<[t:=with_status Fired tm]> (timers w)) w))
        as (_ & _ & -> & _).
    + now destruct (timeout_summary k0
                      (set_timers (<[t:=with_status Fired tm]> (timers w)) w))
        as (_ & -> & _).
Qed.

(** The counter after one event: it is as it was or one id was taken,
    and a [call()] on a connected client takes one. *)
Lemma step_requestId (w w' : State) (e : Event) :
  step w e = Some w' ->
  (requestId w' = requestId w \/ requestId w' = post_incr (requestId w)) /\
  (forall m p, e = CallReq m p -> isConnected w = true ->
     requestId w' = post_incr (requestId w)).
Proof.
  destruct e as [| |m p|s|s data|s err|s|ms|t]; intros Hs;
    (split; [|try discriminate]).
  - injection Hs as <-. left. now destruct (connect_summary w) as (_ & _ & _ & -> & _).
  - injection Hs as <-. left. now destruct (disconnect_summary w) as (_ & -> & _).
  - injection Hs as <-. destruct (call_summary m p w) as (_ & _ & H).
    destruct (isConnected w); destruct H as (_ & _ & ->); auto.
  - intros m' p' _ Hi. injection Hs as <-.
    destruct (call_summary m p w) as (_ & _ & H).
    rewrite Hi in H. now destruct H as (_ & _ & ->).
  - apply step_open_inv in Hs as ->. left.
    now destruct (open_summary s (with_readyState OPEN) w) as (_ & _ & _ & -> & _).
  - apply step_message_inv in Hs as (k0 & _ & _ & ->).
    now destruct (deliver_summary k0 data w) as (_ & _ & _ & _ & _ & _ & _ & H).
  - apply step_error_inv in Hs as ->. now left.
  - apply step_close_inv in Hs as ->. left.
    now destruct (close_summary s (with_readyState CLOSED) w) as (_ & -> & _).
  - injection Hs as <-. now left.
  - apply step_fire_inv in Hs as (tm & Ht & Ha & Hd & ->). left.
    destruct (callback tm) as [|k0]; simpl.
    + now destruct (log_connect_summary LogReconnecting
                      (set_timers (<[t:=with_status Fired tm]> (timers w)) w))
        as (_ & _ & _ & ->).
    + now destruct (timeout_summary k0
                      (set_timers (<[t:=with_status Fired tm]> (timers w)) w))
        as (_ & _ & -> & _).
Qed.

(** ** Invariants of the reachable states *)

(** A timer keeps its index, its deadline and its callback; only its
    status moves, away from [Armed]. *)
Lemma step_timer_persists (w w' : State) (e : Event) (t : nat) (tm : Timer) :
  step w e = Some w' -> timers w !! t = Some tm ->
  exists tm', timers w' !! t = Some tm' /\
    callback tm' = callback tm /\ due tm' = due tm /\
    (tm' = tm \/
     (status tm = Armed /\
      ((e = Fire t /\ status tm' = Fired) \/
       (e = Disconnect /\ reconnectTimer w = Some t /\ status tm' = Cleared)))).
Proof.
  intros Hs Ht. destruct (step_timers w w' e Hs) as (Hl & H).
  assert (t < length (timers w'))%nat as Hlt
    by (apply lookup_lt_Some in Ht; lia).
  apply lookup_lt_is_Some in Hlt as [tm' Ht'].
  exists tm'. split; [assumption|].
  destruct (H t tm' Ht') as [E | [(tm0 & E0 & Ha & Hd & Hc & Hx) | (E & _)]].
  - assert (tm' = tm) as -> by congruence. auto.
  - assert (tm0 = tm) as -> by congruence. auto.
  - apply lookup_lt_Some in Ht. lia.
Qed.

(** When the timeout of call [k] fires, the promise of [k] is settled. *)
Lemma fire_settles (w w' : State) (t k : nat) (tm : Timer) :
  step w (Fire t) = Some w' -> timers w !! t = Some tm ->
  callback tm = CallTimeout k ->
  forall c, calls w' !! k = Some c -> outcome c <> Pending.
Proof.
  intros Hs Ht Hc c Hk.
  apply step_fire_inv in Hs as (tm0 & Ht0 & Ha & Hd & ->).
  assert (tm0 = tm) as -> by congruence. rewrite Hc in Hk. simpl in Hk.
  destruct (timeout_summary k (set_timers (<[t:=with_status Fired tm]> (timers w)) w))
    as (_ & _ & _ & _ & Hl & _ & Heq).
  simpl in *. destruct (calls w !! k) as [c0|] eqn:E0.
  - rewrite (Heq c0 eq_refl) in Hk. injection Hk as <-.
    destruct (outcome c0) eqn:Eo; simpl; congruence.
  - apply lookup_lt_Some in Hk. apply lookup_ge_None in E0. lia.
Qed.

(** After [disconnect()] the timer that [this.reconnectTimer] named is
    not armed. *)
Lemma disconnect_clears (w : State) (t : nat) (tm' : Timer) :
  reconnectTimer w = Some t -> timers (disconnect w) !! t = Some tm' ->
  status tm' <> Armed.
Proof.
  intros Hr. destruct (disconnect_summary w) as (_ & _ & _ & _ & _ & _ & ->).
  rewrite Hr. unfold clearTimeout.
  destruct (timers w !! t) as [tm|] eqn:Et; [|congruence].
  destruct (status tm) eqn:Es; simpl.
  - rewrite list_lookup_insert_eq by (eapply lookup_lt_Some; eauto).
    intros [= <-]. discriminate.
  - intros E. congruence.
  - intros E. congruence.
Qed.

Lemma wf_init (tok : option string) (plat : string) : wf (init tok plat).
Proof. split; simpl; intros; discriminate. Qed.

Lemma wf_step (w w' : State) (e : Event) : wf w -> step w e = Some w' -> wf w'.
Proof.
  intros [W1 W3 W2 W6] Hs.
  pose proof (step_reconnectTimer w w' e Hs) as Hr.
  destruct (step_timers w w' e Hs) as (Htl & Ht).
  destruct (step_calls w w' e Hs) as (Hcl & Hc).
  split.
  - (* wf_handle *)
    intros t Hrt. rewrite Hr in Hrt.
    assert (reconnectTimer w = Some t ->
            exists tm, timers w' !! t = Some tm /\ callback tm = Reconnect) as Hold.
    { intros E. destruct (W1 t E) as (tm & Etm & Ecb).
      destruct (step_timer_persists w w' e t tm Hs Etm) as (tm' & E' & Ecb' & _).
      exists tm'. split; congruence. }
    destruct e; auto; try discriminate.
    destruct (reconnectTimer w) as [t0|] eqn:Er; [apply Hold; congruence|].
    injection Hrt as <-. apply step_close_inv in Hs as ->.
    destruct (close_summary s (with_readyState CLOSED) w) as (_ & _ & _ & H).
    rewrite Er in H. destruct H as (_ & ->).
    eexists. split; [apply list_lookup_middle; reflexivity | reflexivity].
  - (* wf_single *)
    intros t tm' Etm Ecb Est.
    destruct (Ht t tm' Etm)
      as [E | [(tm & E & Ha & Hd & Hcb & [[_ Hx] | (_ & _ & Hx)])
             | (E & [(s & -> & Ern & ->) | (m & p & -> & _ & ->)])]];
      try congruence; try discriminate.
    + pose proof (W3 t tm' E Ecb Est) as Hw. rewrite Hr.
      destruct e; auto.
      * injection Hs as <-. exfalso. now apply (disconnect_clears w t tm' Hw Etm).
      * now rewrite Hw.
    + rewrite Hr, Ern. congruence.
  - (* wf_deadline *)
    intros k c' Ek Eo.
    destruct (Hc k c' Ek)
      as [E | [(c & E & Hp & Hcr & [(s & data & id & _ & _ & Hv) | (t & tm & _ & _ & _ & Hx)])
             | (m & p & -> & -> & [(Hi & ->) | (Hi & ->)])]];
      try congruence; try discriminate.
    + destruct (W2 k c' E Eo) as (t & tm & Etm & Ecb & Est).
      destruct (step_timer_persists w w' e t tm Hs Etm)
        as (tm' & E' & Ecb' & _ & [-> | (_ & [[-> _] | (_ & Hrt & _)])]).
      * exists t, tm. auto.
      * exfalso. now apply (fire_settles w w' t k tm Hs Etm Ecb c' Ek).
      * exfalso. destruct (W1 t Hrt) as (tm0 & E0 & Ecb0). congruence.
    + exfalso. rewrite Eo in Hv. now apply (verdict_not_pending _ _ Hv).
    + injection Hs as <-. destruct (call_summary m p w) as (_ & _ & H).
      rewrite Hi in H. destruct H as (_ & -> & _).
      eexists _, _. split; [apply list_lookup_middle; reflexivity|]. auto.
  - (* wf_owner *)
    intros t tm' k Etm Ecb.
    destruct (Ht t tm' Etm)
      as [E | [(tm & E & Ha & Hd & Hcb & _)
             | (E & [(s & -> & Ern & ->) | (m & p & -> & Hi & ->)])]].
    + pose proof (W6 t tm' k E Ecb). lia.
    + assert (callback tm = CallTimeout k) as Ecb0 by congruence.
      pose proof (W6 t tm k E Ecb0). lia.
    + discriminate.
    + injection Ecb as <-. injection Hs as <-.
      destruct (call_summary m p w) as (_ & _ & H).
      rewrite Hi in H. destruct H as (-> & _). rewrite length_app. simpl. lia.
Qed.

Lemma wf_run (w w' : State) (es : list Event) :
  wf w -> run w es = Some w' -> wf w'.
Proof.
  revert w. induction es as [|e es IH]; intros w Hw; simpl.
  - now intros [= <-].
  - destruct (step w e) as [w1|] eqn:Es; [|discriminate].
    apply IH. eapply wf_step; eauto.
Qed.

Lemma wf_reachable (w : State) : reachable w -> wf w.
Proof. intros (tok & plat & es & H). eapply wf_run; [apply wf_init | exact H]. Qed.

(** ** C2: how a promise can be settled *)

(** A promise that is settled never changes again. *)
Lemma settled_is_final_step (w w' : State) (e : Event) (k : nat) (c : Call) :
  step w e = Some w' -> calls w !! k = Some c -> outcome c <> Pending ->
  calls w' !! k = Some c.
Proof.
  intros Hs Hk Ho. destruct (step_calls w w' e Hs) as (Hl & H).
  assert (k < length (calls w'))%nat as Hlt
    by (apply lookup_lt_Some in Hk; lia).
  apply lookup_lt_is_Some in Hlt as [c' Hk'].
  destruct (H k c' Hk') as [E | [(c0 & E & Hp & _) | (m & p & _ & -> & _)]].
  - congruence.
  - congruence.
  - apply lookup_lt_Some in Hk. lia.
Qed.

Lemma settled_is_final (w w' : State) (es : list Event) (k : nat) (c : Call) :
  run w es = Some w' -> calls w !! k = Some c -> outcome c <> Pending ->
  calls w' !! k = Some c.
Proof.
  revert w. induction es as [|e es IH]; intros w; simpl.
  - intros [= <-]. auto.
  - destruct (step w e) as [w1|] eqn:Es; [|discriminate].
    intros Hr Hk Ho. apply (IH w1 Hr); auto.
    eapply settled_is_final_step; eauto.
Qed.

Lemma justified_later (e : Event) (es : list Event) (c : Call) :
  justified es c -> justified (e :: es) c.
Proof.
  unfold justified. destruct (outcome c) as [|v|[|er| |]]; auto.
  - intros (s & j & id & H & Hr). exists s, j, id. split; [now right | exact Hr].
  - intros (s & j & id & H & Hr). exists s, j, id. split; [now right | exact Hr].
  - intros (s & data & H & Hr). exists s, data. split; [now right | exact Hr].
  - intros (t & H). exists t. now right.
Qed.

Lemma verdict_justified (s : nat) (data : Frame) (es : list Event)
      (id : string) (c : Call) :
  corr c = Some id -> verdict id data = Some (outcome c) ->
  justified (WsMessage s data :: es) c.
Proof.
  intros Hc Hv. unfold justified, verdict in *.
  destruct data as [|j].
  - injection Hv as <-. exists s, Garbled. split; [now left | reflexivity].
  - destruct (nullish j) eqn:En.
    + injection Hv as <-. exists s, (Text j). split; [now left | exact En].
    + destruct (answers id j) eqn:Ea; [|discriminate].
      destruct (truthy (prop "ok" j)) eqn:Eo; injection Hv as <-;
        exists s, j, id; repeat split; auto; now left.
Qed.

Lemma run_calls (w w' : State) (es : list Event) (k : nat) (c' : Call) :
  run w es = Some w' -> calls w' !! k = Some c' ->
  calls w !! k = Some c' \/ justified es c'.
Proof.
  revert w. induction es as [|e es IH]; intros w; simpl.
  - intros [= <-]. auto.
  - destruct (step w e) as [w1|] eqn:Es; [|discriminate].
    intros Hr Hk. destruct (IH w1 Hr Hk) as [E | J].
    + destruct (step_calls w w1 e Es) as (_ & H).
      destruct (H k c' E)
        as [E0 | [(c & E0 & Hp & Hcr & [(s & data & id & -> & Hid & Hv)
                                        | (t & tm & -> & _ & _ & Hx)])
                 | (m & p & -> & -> & [(Hi & ->) | (Hi & ->)])]].
      * now left.
      * right. apply (verdict_justified s data es id); congruence.
      * right. unfold justified. rewrite Hx. exists t. now left.
      * right. exact I.
      * right. reflexivity.
    + right. now apply justified_later.
Qed.

Lemma step_corr (w w' : State) (e : Event) (k : nat) (c' : Call) (id : string) :
  step w e = Some w' -> calls w' !! k = Some c' -> corr c' = Some id ->
  (exists c, calls w !! k = Some c /\ corr c = Some id) \/
  (k = length (calls w) /\ id = call_id (requestId w) /\
   requestId w' = post_incr (requestId w)).
Proof.
  intros Hs Hk Hc. destruct (step_calls w w' e Hs) as (_ & H).
  destruct (H k c' Hk)
    as [E | [(c & E & _ & Hcr & _)
           | (m & p & -> & -> & [(Hi & ->) | (Hi & ->)])]].
  - left. eauto.
  - left. exists c. split; congruence.
  - right. injection Hc as <-. repeat split.
    destruct (step_requestId w w' _ Hs) as (_ & Hq). now apply (Hq m p).
  - discriminate.
Qed.

Lemma ids_fresh_step (w w' : State) (e : Event) :
  ids_fresh w -> step w e = Some w' -> ids_fresh w'.
Proof.
  intros Hw Hs Hlt k c id Hk Hc.
  destruct (step_requestId w w' e Hs) as (Hq & _).
  pose proof (post_incr_mono (requestId w)) as Hm.
  assert (requestId w <= requestId w') as Hle by (destruct Hq; lia).
  assert (requestId w < MAX_EXACT) as Hlt0 by lia.
  specialize (Hw Hlt0).
  assert (forall k2 c2, calls w' !! k2 = Some c2 -> corr c2 = Some id ->
            (exists c0, calls w !! k2 = Some c0 /\ corr c0 = Some id) \/
            (k2 = length (calls w) /\ id = call_id (requestId w) /\
             requestId w' = requestId w + 1)) as Hcases.
  { intros k2 c2 Hk2 Hc2.
    destruct (step_corr w w' e k2 c2 id Hs Hk2 Hc2) as [H | (H1 & H2 & H3)]; auto.
    right. repeat split; auto. rewrite H3. apply post_incr_below. now rewrite <- H3. }
  destruct (Hcases k c Hk Hc) as [(c0 & E0 & Hc0) | (-> & -> & Hq')].
  - destruct (Hw k c0 id E0 Hc0) as ((n & -> & Hn) & Huniq). split.
    + exists n. split; [reflexivity | lia].
    + intros k2 c2 Hk2 Hc2.
      destruct (Hcases k2 c2 Hk2 Hc2) as [(c3 & E3 & Hc3) | (-> & Hid & _)].
      * eapply Huniq; eauto.
      * apply call_id_inj in Hid. lia.
  - split.
    + exists (requestId w). split; [reflexivity | lia].
    + intros k2 c2 Hk2 Hc2.
      destruct (Hcases k2 c2 Hk2 Hc2) as [(c3 & E3 & Hc3) | (-> & _)]; [|reflexivity].
      destruct (Hw k2 c3 _ E3 Hc3) as ((n & Hid & Hn) & _).
      apply call_id_inj in Hid. lia.
Qed.

Lemma ids_fresh_run (w w' : State) (es : list Event) :
  ids_fresh w -> run w es = Some w' -> ids_fresh w'.
Proof.
  revert w. induction es as [|e es IH]; intros w Hw; simpl.
  - now intros [= <-].
  - destruct (step w e) as [w1|] eqn:Es; [|discriminate].
    apply IH. eapply ids_fresh_step; eauto.
Qed.

Lemma ids_fresh_init (tok : option string) (plat : string) :
  ids_fresh (init tok plat).
Proof. intros _ k c id H. discriminate. Qed.

(** C2 (as the code has it).  In every run of the client: (1) a promise
    is resolved only with the payload of a response frame that bears
    its own id, and rejected only with the error of such a frame, with
    [NotConnected] by [call()] itself, with [Timeout] by a timer, or
    with the parse error of a malformed frame; (2) once settled, a
    promise never changes, whatever arrives later and in whatever
    order; (3) a promise that is still pending has its timeout armed,
    and that timer rejects it when it fires; (4) while the counter is
    below 2^53, no two promises hold the same id. *)
Theorem C2_promise_settled_once_for_its_own_id
        (tok : option string) (plat : string) (es : list Event) (w : State) :
  run (init tok plat) es = Some w ->
  (forall k c, calls w !! k = Some c -> justified es c) /\
  (forall k c es' w',
     calls w !! k = Some c -> outcome c <> Pending ->
     run w es' = Some w' -> calls w' !! k = Some c) /\
  (forall k c,
     calls w !! k = Some c -> outcome c = Pending ->
     exists t tm,
       timers w !! t = Some tm /\ callback tm = CallTimeout k /\
       status tm = Armed /\
       forall w', step w (Fire t) = Some w' ->
         calls w' !! k = Some {| corr := corr c; outcome := Rejected Timeout |}) /\
  (requestId w < MAX_EXACT ->
   forall k1 k2 c1 c2 id,
     calls w !! k1 = Some c1 -> calls w !! k2 = Some c2 ->
     corr c1 = Some id -> corr c2 = Some id -> k1 = k2).
Proof.
  intros Hr. repeat split.
  - intros k c Hk. destruct (run_calls _ _ _ _ _ Hr Hk) as [E | J]; [discriminate | exact J].
  - intros k c es' w' Hk Ho Hr'. eapply settled_is_final; eauto.
  - intros k c Hk Ho.
    destruct (wf_deadline w (wf_run _ _ _ (wf_init tok plat) Hr) k c Hk Ho)
      as (t & tm & Et & Ecb & Est).
    exists t, tm. repeat split; auto. intros w' Hs.
    apply step_fire_inv in Hs as (tm0 & Et0 & _ & _ & ->).
    assert (tm0 = tm) as -> by congruence. rewrite Ecb. simpl.
    destruct (timeout_summary k (set_timers (<[t:=with_status Fired tm]> (timers w)) w))
      as (_ & _ & _ & _ & _ & _ & Heq).
    rewrite (Heq c Hk), Ho. reflexivity.
  - intros Hlt k1 k2 c1 c2 id H1 H2 Hc1 Hc2.
    pose proof (ids_fresh_run _ _ _ (ids_fresh_init tok plat) Hr Hlt) as H.
    destruct (H k2 c2 id H2 Hc2) as (_ & Hu). eapply Hu; eauto.
Qed.

Lemma C2_promise_settled_once_for_its_own_id_witness :
  run (init None "linux") two_calls_answered_in_reverse = Some both_resolved /\
  (forall k c, calls both_resolved !! k = Some c ->
               justified two_calls_answered_in_reverse c).
Proof.
  split; [vm_compute; reflexivity|].
  apply (C2_promise_settled_once_for_its_own_id
           None "linux" two_calls_answered_in_reverse both_resolved).
  vm_compute; reflexivity.
Defined.

(** C2, counterexample: two calls are pending when the frame [null]
    arrives; it bears no id, yet both promises are settled by it. *)
Lemma C2_one_frame_without_id_settles_two_calls :
  observe calls
    (handshake ++
     [CallReq "cron.list" (JObj []); CallReq "agent.send" (JObj []);
      WsMessage 0 (Text JNull)]) =
    Some [{| corr := Some "call-1"; outcome := Rejected ParseError |};
          {| corr := Some "call-2"; outcome := Rejected ParseError |}]%string.
Proof. vm_compute. reflexivity. Qed.

(** ** Calls in flight *)

Lemma in_flight_call (method : string) (params : Json) (w : State) :
  wf w -> isConnected w = true ->
  in_flight (length (calls w)) (length (timers w)) (call_id (requestId w))
            (now w + callTimeout) (call method params w).
Proof.
  intros Hw Hi. destruct (call_summary method params w) as (_ & _ & H).
  rewrite Hi in H. destruct H as (Hc & Ht & _). split.
  - rewrite Hc. apply list_lookup_middle. reflexivity.
  - eexists. rewrite Ht. split; [apply list_lookup_middle; reflexivity|]. auto.
  - intros t' tm' Et Ecb. rewrite Ht in Et.
    apply lookup_app_Some in Et as [Et | [Hl Et]].
    + pose proof (wf_owner w Hw t' tm' _ Et Ecb). lia.
    + apply list_lookup_singleton_Some in Et as [Hz _]. lia.
Qed.

Lemma in_flight_step (k t : nat) (id : string) (deadline : N)
      (w w' : State) (e : Event) :
  in_flight k t id deadline w -> quiet id t e = true -> step w e = Some w' ->
  in_flight k t id deadline w'.
Proof.
  intros [Hc (tm & Et & Ed & Ecb) Ho] Hq Hs.
  assert (k < length (calls w))%nat as Hk by (eapply lookup_lt_Some; eauto).
  split.
  - destruct (step_calls w w' e Hs) as (Hl & H).
    assert (k < length (calls w'))%nat as Hlt by lia.
    apply lookup_lt_is_Some in Hlt as [c' Hk'].
    destruct (H k c' Hk')
      as [E | [(c & E & Hp & Hcr & [(s & data & id0 & -> & Hid & Hv)
                                    | (t0 & tm0 & -> & Et0 & Ecb0 & _)])
             | (m & p & _ & -> & _)]].
    + congruence.
    + exfalso. rewrite Hc in E. injection E as <-. simpl in Hid.
      injection Hid as <-. simpl in Hq. now rewrite Hv in Hq.
    + exfalso. pose proof (Ho t0 tm0 Et0 Ecb0) as ->.
      simpl in Hq. now rewrite Nat.eqb_refl in Hq.
    + lia.
  - destruct (step_timer_persists w w' e t tm Hs Et) as (tm' & E' & Ecb' & Ed' & _).
    exists tm'. repeat split; congruence.
  - intros t' tm' Et' Ecb'.
    destruct (step_timers w w' e Hs) as (_ & H).
    destruct (H t' tm' Et')
      as [E | [(tm0 & E & _ & _ & Hcb & _)
             | (_ & [(s & _ & _ & ->) | (m & p & _ & _ & ->)])]].
    + eapply Ho; eauto.
    + eapply Ho; eauto. congruence.
    + discriminate.
    + injection Ecb' as <-. lia.
Qed.

Lemma in_flight_run (k t : nat) (id : string) (deadline : N)
      (w w' : State) (es : list Event) :
  in_flight k t id deadline w -> forallb (quiet id t) es = true ->
  run w es = Some w' -> in_flight k t id deadline w'.
Proof.
  revert w. induction es as [|e es IH]; intros w Hf; simpl.
  - now intros _ [= <-].
  - intros Hq. apply andb_prop in Hq as [Hq Hqs].
    destruct (step w e) as [w1|] eqn:Es; [|discriminate].
    apply IH; auto. eapply in_flight_step; eauto.
Qed.

Lemma not_in_drop_listener (h : nat) (ls : list nat) : ~ In h (drop_listener h ls).
Proof.
  unfold drop_listener. rewrite filter_In. intros [_ H].
  now rewrite Nat.eqb_refl in H.
Qed.

Lemma settle_sockets (k : nat) (o : Settlement) (w : State) :
  sockets (settle k o w) = sockets w /\ ws (settle k o w) = ws w.
Proof.
  unfold settle. destruct (calls w !! k) as [c|]; [|auto].
  destruct (outcome c); auto.
Qed.

Lemma ready_reachable : reachable ready.
Proof. exists None, "linux"%string, handshake. vm_compute. reflexivity. Qed.

(** ** C3: disconnect() *)

Lemma disconnect_idempotent (w : State) : disconnect (disconnect w) = disconnect w.
Proof.
  destruct (disconnect_summary w) as (_ & _ & _ & Hr & Hw & Hc & _).
  unfold disconnect at 1. rewrite Hr, Hw.
  destruct (disconnect w); simpl in *. now subst.
Qed.

(** [disconnect()] cancels the reconnect timer, starts closing the
    socket and clears the fields. *)
Lemma disconnect_effect (w : State) :
  wf w ->
  reconnectTimer (disconnect w) = None /\
  ws (disconnect w) = None /\
  connected (disconnect w) = false /\
  isConnected (disconnect w) = false /\
  (forall t tm, timers (disconnect w) !! t = Some tm ->
                callback tm = Reconnect -> status tm <> Armed) /\
  (forall s k, ws w = Some s -> sockets w !! s = Some k ->
     readyState <$> (sockets (disconnect w) !! s) = Some (closing (readyState k))).
Proof.
  intros Hw.
  destruct (disconnect_summary w) as (_ & _ & _ & Hr & Hs & Hc & _).
  split; [exact Hr|]. split; [exact Hs|]. split; [exact Hc|].
  split; [|split].
  - unfold isConnected. now rewrite Hc.
  - intros t tm Et Ecb Est.
    pose proof (wf_single _ (wf_step w _ Disconnect Hw eq_refl) t tm Et Ecb Est) as H.
    congruence.
  - intros s k Es Ek. unfold disconnect.
    set (w1 := match reconnectTimer w with
               | Some t => set_reconnectTimer None (clearTimeout t w)
               | None => w
               end).
    assert (sockets w1 = sockets w /\ ws w1 = ws w) as [E1 E2].
    { subst w1. destruct (reconnectTimer w) as [t|]; [|auto].
      unfold clearTimeout. destruct (timers w !! t) as [tm|]; [|auto].
      destruct (status tm); auto. }
    rewrite E2, Es. unfold ws_close, on_socket. rewrite E1, Ek. simpl.
    rewrite list_lookup_insert_eq by (eapply lookup_lt_Some; eauto).
    reflexivity.
Qed.

(** The close event of a socket runs the same listener after
    [disconnect()] as before it, and [disconnect()] has just cleared
    [this.reconnectTimer]: a reconnect timer is armed. *)
Lemma close_after_disconnect_schedules_reconnect (w w' : State) (s : nat) :
  step (disconnect w) (WsClose s) = Some w' ->
  reconnectTimer w' = Some (length (timers w)) /\
  timers w' !! length (timers w) =
    Some {| due := now w + reconnectDelay; callback := Reconnect; status := Armed |}.
Proof.
  intros Hs. apply step_close_inv in Hs as ->.
  destruct (close_summary s (with_readyState CLOSED) (disconnect w))
    as (_ & _ & _ & H).
  destruct (disconnect_summary w) as (_ & _ & Hn & Hr & _ & _ & Ht).
  rewrite Hr in H. destruct H as (-> & ->).
  assert (length (timers (disconnect w)) = length (timers w)) as El.
  { rewrite Ht. destruct (reconnectTimer w) as [t|]; [|reflexivity].
    unfold clearTimeout. destruct (timers w !! t) as [tm|]; [|reflexivity].
    destruct (status tm); simpl; auto. apply length_insert. }
  rewrite El, Hn. split; [reflexivity|].
  rewrite <- El. apply list_lookup_middle. reflexivity.
Qed.

(** C3, the code at the failing input.  The handshake completed and
    [disconnect()] is called; the close event of the socket follows,
    two seconds pass and the timer that the close armed fires:
    [connect()] has been called again, [this.ws] is a new socket that
    is connecting. *)
Theorem C3_reconnects_after_disconnect :
  observe (fun w => (ws w, readyState <$> sockets w, timers w))
          (handshake ++ [Disconnect]) =
    Some (None, [CLOSING], []) /\
  observe (fun w => (ws w, readyState <$> sockets w, timers w))
          (handshake ++ [Disconnect; WsClose 0]) =
    Some (None, [CLOSED],
          [{| due := 2000; callback := Reconnect; status := Armed |}]) /\
  observe (fun w => (ws w, readyState <$> sockets w, timers w))
          (handshake ++ [Disconnect; WsClose 0; Elapse 2000; Fire 0]) =
    Some (Some 1%nat, [CLOSED; CONNECTING],
          [{| due := 2000; callback := Reconnect; status := Fired |}]).
Proof. repeat split; vm_compute; reflexivity. Qed.

(** ** C4: the reconnect timer *)

(** At most one reconnect timer is armed at any time. *)
Lemma at_most_one_reconnect_timer (w : State) (t1 t2 : nat) (tm1 tm2 : Timer) :
  reachable w ->
  timers w !! t1 = Some tm1 -> callback tm1 = Reconnect -> status tm1 = Armed ->
  timers w !! t2 = Some tm2 -> callback tm2 = Reconnect -> status tm2 = Armed ->
  t1 = t2.
Proof.
  intros Hr E1 C1 S1 E2 C2 S2. apply wf_reachable in Hr.
  pose proof (wf_single w Hr t1 tm1 E1 C1 S1).
  pose proof (wf_single w Hr t2 tm2 E2 C2 S2). congruence.
Qed.

(** With no handle in [this.reconnectTimer], a close arms the timer,
    due after the 2000 ms delay. *)
Lemma close_schedules_reconnect (w w' : State) (s : nat) :
  reconnectTimer w = None -> step w (WsClose s) = Some w' ->
  reconnectTimer w' = Some (length (timers w)) /\
  timers w' = timers w ++
    [{| due := now w + reconnectDelay; callback := Reconnect; status := Armed |}].
Proof.
  intros Hr Hs. apply step_close_inv in Hs as ->.
  destruct (close_summary s (with_readyState CLOSED) w) as (_ & _ & _ & H).
  now rewrite Hr in H.
Qed.

(** The handle is never reset when its timer fires: once it is set, a
    close schedules nothing, whether or not that timer is still armed. *)
Lemma stale_handle_blocks_reconnect (w w' : State) (s t : nat) :
  reconnectTimer w = Some t -> step w (WsClose s) = Some w' ->
  timers w' = timers w /\ reconnectTimer w' = Some t.
Proof.
  intros Hr Hs. apply step_close_inv in Hs as ->.
  destruct (close_summary s (with_readyState CLOSED) w) as (_ & _ & _ & H).
  rewrite Hr in H. tauto.
Qed.

(** C4, the code at the failing input.  The client is connected when
    the gateway goes away: the socket closes, the reconnect timer is
    armed and fires after two seconds, [connect()] runs and the
    handshake completes on the new socket.  Then the gateway goes away
    again.  This second close arms nothing: the only timer is the one
    that has fired, its handle is still in [this.reconnectTimer], both
    sockets are closed, and the client stays like that however long it
    waits. *)
Theorem C4_second_close_schedules_no_reconnect :
  observe (fun w => (reconnectTimer w, timers w, readyState <$> sockets w))
          (handshake ++ [WsClose 0]) =
    Some (Some 0%nat,
          [{| due := 2000; callback := Reconnect; status := Armed |}],
          [CLOSED]) /\
  observe (fun w => (isConnected w, reconnectTimer w, timers w,
                     readyState <$> sockets w))
          (handshake ++
           [WsClose 0; Elapse 2000; Fire 0;
            WsOpen 1; WsMessage 1 (Text (challenge "xyz")); WsMessage 1 (Text acceptance)]) =
    Some (true, Some 0%nat,
          [{| due := 2000; callback := Reconnect; status := Fired |}],
          [CLOSED; OPEN]) /\
  observe (fun w => (isConnected w, reconnectTimer w, timers w,
                     readyState <$> sockets w))
          (handshake ++
           [WsClose 0; Elapse 2000; Fire 0;
            WsOpen 1; WsMessage 1 (Text (challenge "xyz")); WsMessage 1 (Text acceptance);
            WsClose 1; Elapse 600000]) =
    Some (false, Some 0%nat,
          [{| due := 2000; callback := Reconnect; status := Fired |}],
          [CLOSED; CLOSED]).
Proof. repeat split; vm_compute; reflexivity. Qed.

(** A socket is created only by [connect()]: called by a collaborator,
    or by a reconnect timer that was armed. *)
Lemma step_new_socket (w w' : State) (e : Event) :
  step w e = Some w' ->
  length (sockets w') = length (sockets w) \/
  e = Connect \/
  exists t tm, e = Fire t /\ timers w !! t = Some tm /\
               callback tm = Reconnect /\ status tm = Armed.
Proof.
  destruct e as [| |m p|s|s data|s err|s|ms|t]; intros Hs.
  - auto.
  - injection Hs as <-. left. by_cases; apply length_insert.
  - injection Hs as <-. left. unfold call.
    destruct (isConnected w); [|reflexivity].
    destruct (ws w) as [s|]; [|reflexivity]. by_cases;
      rewrite ?length_insert; auto.
  - apply step_open_inv in Hs as ->. left. by_cases. apply length_insert.
  - apply step_message_inv in Hs as (k0 & _ & _ & ->). left.
    now destruct (deliver_summary k0 data w) as (_ & _ & _ & _ & _ & _ & H & _).
  - apply step_error_inv in Hs as ->. now left.
  - apply step_close_inv in Hs as ->. left. by_cases; apply length_insert.
  - injection Hs as <-. now left.
  - apply step_fire_inv in Hs as (tm & Ht & Ha & Hd & ->).
    destruct (callback tm) as [|k0] eqn:Ecb.
    + right; right. exists t, tm. auto.
    + left. simpl. unfold reject.
      pose proof (ocl_trans _ _ _
                    (off_ocl k0 (set_timers (<[t:=with_status Fired tm]> (timers w)) w))
                    (settle_ocl k0 (Rejected Timeout) _)) as H.
      destruct H as (_ & _ & _ & _ & _ & _ & _ & _ & _ & _ & Hrs & _).
      apply (f_equal length) in Hrs. now rewrite !length_fmap in Hrs.
Qed.

(** Once the reconnect timer has fired, the client never connects
    again by itself: whatever the sockets and the timers do, no socket
    is created until a collaborator calls [connect()] or
    [disconnect()]. *)
Lemma never_reconnects_again (w w' : State) (es : list Event) (t : nat) :
  wf w -> reconnectTimer w = Some t ->
  (forall tm, timers w !! t = Some tm -> status tm <> Armed) ->
  forallb hands_off es = true -> run w es = Some w' ->
  length (sockets w') = length (sockets w) /\ reconnectTimer w' = Some t.
Proof.
  revert w. induction es as [|e es IH]; intros w Hw Hr Hna; simpl.
  - intros _ [= <-]. auto.
  - intros Hq. apply andb_prop in Hq as [Hq Hqs].
    destruct (step w e) as [w1|] eqn:Es; [|discriminate].
    intros Hrun.
    assert (reconnectTimer w1 = Some t) as Hr1.
    { rewrite (step_reconnectTimer w w1 e Es). destruct e; auto; [discriminate|].
      now rewrite Hr. }
    assert (forall tm, timers w1 !! t = Some tm -> status tm <> Armed) as Hna1.
    { intros tm1 E1. destruct (step_timers w w1 e Es) as (_ & H).
      destruct (H t tm1 E1)
        as [E | [(tm & E & _ & _ & _ & [[_ Hx] | (_ & _ & Hx)]) | (E & _)]].
      - now apply Hna.
      - congruence.
      - congruence.
      - destruct (wf_handle w Hw t Hr) as (tm & E0 & _).
        apply lookup_lt_Some in E0. lia. }
    destruct (IH w1 (wf_step w w1 e Hw Es) Hr1 Hna1 Hqs Hrun) as (Hl & Hr').
    split; [|exact Hr']. rewrite Hl.
    destruct (step_new_socket w w1 e Es) as [E | [-> | (t0 & tm & -> & E0 & Ecb & Est)]].
    + exact E.
    + discriminate.
    + exfalso. pose proof (wf_single w Hw t0 tm E0 Ecb Est) as H.
      assert (t0 = t) as -> by congruence. now apply (Hna tm).
Qed.

(** * The collaborators *)

(** ** The event buffer of the main process and the list of the renderer *)

Lemma record_event_drop (buf : list GatewayEvent) (ev : GatewayEvent) :
  (length buf <= MAX_EVENTS)%nat ->
  record_event buf ev =
    drop (length (buf ++ [ev]) - MAX_EVENTS) (buf ++ [ev]).
Proof.
  intros Hl. unfold record_event. rewrite length_app. simpl.
  destruct (Nat.ltb_spec MAX_EVENTS (length buf + 1)) as [H|H].
  - replace (length buf + 1 - MAX_EVENTS)%nat with 1%nat by lia.
    now destruct (buf ++ [ev]).
  - replace (length buf + 1 - MAX_EVENTS)%nat with 0%nat by lia. reflexivity.
Qed.

Lemma fold_record_event (buf evs : list GatewayEvent) :
  (length buf <= MAX_EVENTS)%nat ->
  fold_left record_event evs buf =
    drop (length (buf ++ evs) - MAX_EVENTS) (buf ++ evs).
Proof.
  intros Hl. induction evs as [|ev evs IH] using rev_ind.
  - simpl. rewrite app_nil_r.
    replace (length buf - MAX_EVENTS)%nat with 0%nat by lia. reflexivity.
  - rewrite fold_left_app. simpl. rewrite IH.
    rewrite record_event_drop by (rewrite length_drop; lia).
    rewrite length_app, length_drop. simpl.
    rewrite (app_assoc buf evs [ev]).
    set (l := buf ++ evs).
    rewrite length_app. simpl.
    destruct (Nat.le_gt_cases (length l) MAX_EVENTS) as [H|H].
    + replace (length l - MAX_EVENTS)%nat with 0%nat by lia. simpl.
      replace (length l - 0 + 1 - MAX_EVENTS)%nat
        with (length l + 1 - MAX_EVENTS)%nat by lia.
      reflexivity.
    + replace (length l - (length l - MAX_EVENTS) + 1 - MAX_EVENTS)%nat
        with 1%nat by lia.
      rewrite <- (drop_app_le l [ev]) by lia.
      rewrite drop_drop. f_equal. lia.
Qed.

(** X1.  Whatever the buffer held (at most [MAX_EVENTS] entries, none
    after [gateway:clear]), after any number of events it holds the
    last 100 of what it held followed by what arrived, oldest first,
    and never more than 100. *)
Theorem X1_event_buffer_holds_last_100 (buf evs : list GatewayEvent) :
  (length buf <= MAX_EVENTS)%nat ->
  fold_left record_event evs buf =
    drop (length (buf ++ evs) - MAX_EVENTS) (buf ++ evs) /\
  (length (fold_left record_event evs buf) <= MAX_EVENTS)%nat.
Proof.
  intros Hl. pose proof (fold_record_event buf evs Hl) as E.
  split; [exact E|]. rewrite E, length_drop. lia.
Qed.

Lemma X1_event_buffer_holds_last_100_witness :
  (length (@nil GatewayEvent) <= MAX_EVENTS)%nat /\
  (length (fold_left record_event
             (replicate 250 (normalized (challenge "abc") 7)) []) <= MAX_EVENTS)%nat.
Proof.
  split; [simpl; lia|].
  apply (X1_event_buffer_holds_last_100 [] (replicate 250 (normalized (challenge "abc") 7))).
  simpl; lia.
Defined.

Lemma take_app_take {A : Type} (n : nat) (a b : list A) :
  take n (a ++ take n b) = take n (a ++ b).
Proof.
  destruct (Nat.le_gt_cases n (length a)) as [H|H].
  - now rewrite !take_app_le by lia.
  - rewrite !take_app_ge by lia. f_equal. rewrite take_take. f_equal. lia.
Qed.

Lemma handleEvent_fold (prev evs : list GatewayEvent) :
  (length prev <= 100)%nat ->
  fold_left handleEvent evs prev = take 100 (rev evs ++ prev).
Proof.
  revert prev. induction evs as [|ev evs IH]; intros prev Hl.
  - simpl. symmetry. now apply take_ge.
  - simpl. rewrite IH by (unfold handleEvent; rewrite length_take; apply Nat.le_min_l).
    unfold handleEvent. rewrite take_app_take, <- app_assoc. reflexivity.
Qed.

(** X2.  The event view and the main process are fed the same events:
    the list of the view is the buffer of the main process read
    backwards, newest first, both holding the same last 100 events. *)
Theorem X2_renderer_list_mirrors_main_buffer (evs : list GatewayEvent) :
  fold_left handleEvent evs [] = rev (fold_left record_event evs []) /\
  fold_left handleEvent evs [] = take 100 (rev evs).
Proof.
  pose proof (handleEvent_fold [] evs) as E. simpl in E.
  rewrite app_nil_r in E. specialize (E (Nat.le_0_l _)).
  split; [|exact E].
  rewrite (fold_record_event [] evs) by (simpl; lia).
  simpl. rewrite E. unfold MAX_EVENTS.
  destruct (Nat.le_gt_cases (length evs) 100) as [H|H].
  - replace (length evs - 100)%nat with 0%nat by lia. rewrite drop_0.
    apply take_ge. rewrite length_rev. lia.
  - rewrite firstn_rev. reflexivity.
Qed.

(** ** The cache of the main process *)

(** X3.  A value that was stored is returned by every lookup made less
    than [CACHE_TTL] = 5000 ms after it was stored, and such a lookup
    leaves the cache as it is. *)
Theorem X3_cache_hit_within_ttl {T : Type} (stored asked : N) (key : string) (d : T)
        (cache : gmap string (CacheEntry T)) :
  asked < stored + CACHE_TTL ->
  getCached asked key (setCache stored key d cache) =
    (Some d, setCache stored key d cache).
Proof.
  intros H. unfold getCached, setCache. rewrite lookup_insert_eq. simpl.
  destruct (N.ltb_spec asked (stored + CACHE_TTL)); [reflexivity | lia].
Qed.

Lemma X3_cache_hit_within_ttl_witness :
  4999 < 0 + CACHE_TTL /\
  getCached 4999 "cron:status" (setCache 0 "cron:status" (JArr []) ∅) =
    (Some (JArr []), setCache 0 "cron:status" (JArr []) ∅).
Proof.
  split; [reflexivity|].
  apply (X3_cache_hit_within_ttl 0 4999 "cron:status" (JArr []) ∅). reflexivity.
Defined.

(** X4.  From [CACHE_TTL] ms after it was stored, a value is no longer
    returned: the lookup answers [null] and removes the entry, so that
    the cache is what it would be had the key never been stored, and
    later lookups of the key miss at any time, the clock going
    backwards included. *)
Theorem X4_cache_entry_expires {T : Type} (stored asked : N) (key : string) (d : T)
        (cache : gmap string (CacheEntry T)) :
  stored + CACHE_TTL <= asked ->
  getCached asked key (setCache stored key d cache) = (None, delete key cache) /\
  forall later, getCached later key (delete key cache) = (None, delete key cache).
Proof.
  intros H. unfold getCached, setCache. split.
  - rewrite lookup_insert_eq. simpl.
    destruct (N.ltb_spec asked (stored + CACHE_TTL)); [lia|].
    now rewrite delete_insert_eq.
  - intros later. rewrite lookup_delete_eq. now rewrite delete_delete_eq.
Qed.

Lemma X4_cache_entry_expires_witness :
  0 + CACHE_TTL <= 5000 /\
  getCached 5000 "cron:status" (setCache 0 "cron:status" (JArr []) ∅) =
    (None, delete "cron:status" (∅ : gmap string (CacheEntry Json))).
Proof.
  split; [reflexivity|].
  apply (X4_cache_entry_expires 0 5000 "cron:status" (JArr []) ∅). reflexivity.
Defined.

(** X5.  A lookup never returns a value that has expired or that was
    not stored under that key: what it returns is the data of the
    entry of the key, whose expiry is later than the clock; and neither
    a lookup nor a store touches the entries of other keys. *)
Theorem X5_cache_returns_only_live_entries {T : Type} (clock : N) (key : string)
        (cache : gmap string (CacheEntry T)) :
  (forall d, fst (getCached clock key cache) = Some d ->
     exists entry, cache !! key = Some entry /\ c_data entry = d /\
                   clock < c_expires entry) /\
  (forall other, other <> key ->
     snd (getCached clock key cache) !! other = cache !! other /\
     forall d, setCache clock key d cache !! other = cache !! other).
Proof.
  split.
  - intros d. unfold getCached. destruct (cache !! key) as [entry|]; [|discriminate].
    destruct (N.ltb_spec clock (c_expires entry)); [|discriminate].
    simpl. intros [= <-]. eauto.
  - intros other Hne. split.
    + unfold getCached. destruct (cache !! key) as [entry|].
      * destruct (clock <? c_expires entry); simpl; [reflexivity|].
        now apply lookup_delete_ne.
      * simpl. now apply lookup_delete_ne.
    + intros d. unfold setCache. now apply lookup_insert_ne.
Qed.

(** * More of the client *)

(** ** Pushed events *)

Lemma on_message_pushed (j : Json) (w : State) :
  is_pushed_event j = true ->
  on_message (Text j) w =
    let w1 := log (LogMessage (prop "type" j)
                              (or_else (prop "event" j) (prop "method" j))) w in
    emit (or_else (prop "event" j) (JStr "unknown"))
         (EventArg (normalized j (now w)))
         (emit (JStr "message") (EventArg (normalized j (now w))) w1).
Proof.
  unfold is_pushed_event. intros H.
  apply andb_prop in H as [H He]. apply andb_prop in H as [Hn Ht].
  apply negb_true_iff in Hn, He.
  unfold on_message, handle_message. now rewrite Hn, Ht, He.
Qed.

Lemma deliver_pushed (k : WebSocket) (j : Json) (w : State) :
  is_pushed_event j = true -> deliver k (Text j) w = on_message (Text j) w.
Proof.
  intros H. unfold deliver. apply fold_listeners_deaf. intros id.
  unfold is_pushed_event in H.
  apply andb_prop in H as [H _]. apply andb_prop in H as [Hn Ht].
  apply negb_true_iff in Hn. now apply verdict_event.
Qed.

(** X6.  An event frame that is not the challenge is forwarded twice,
    in this order: on the channel ['message'] and on the channel of its
    own name (['unknown'] when it has no truthy name), both times as
    the same normalized event stamped with the time of receipt.
    Nothing else happens: no socket, promise, timer or field of the
    client changes, and only the console gets a line. *)
Theorem X6_pushed_event_forwarded_twice (w w' : State) (s : nat) (j : Json) :
  is_pushed_event j = true ->
  step w (WsMessage s (Text j)) = Some w' ->
  emitted w' = emitted w ++
    [mkEmission (JStr "message") (EventArg (normalized j (now w)));
     mkEmission (or_else (prop "event" j) (JStr "unknown"))
                (EventArg (normalized j (now w)))] /\
  sockets w' = sockets w /\ calls w' = calls w /\ timers w' = timers w /\
  ws w' = ws w /\ connected w' = connected w /\
  reconnectTimer w' = reconnectTimer w /\ requestId w' = requestId w.
Proof.
  intros Hp Hs.
  apply step_message_inv in Hs as (k & Hk & _ & ->).
  rewrite (deliver_pushed k j w Hp), (on_message_pushed j w Hp).
  simpl. rewrite <- app_assoc. repeat split; reflexivity.
Qed.

Lemma X6_pushed_event_forwarded_twice_witness :
  is_pushed_event cron_finished = true /\
  step ready (WsMessage 0 (Text cron_finished)) =
    Some (on_message (Text cron_finished) ready) /\
  calls (on_message (Text cron_finished) ready) = calls ready.
Proof.
  split; [reflexivity|]. split; [vm_compute; reflexivity|].
  eapply (X6_pushed_event_forwarded_twice ready _ 0 cron_finished);
    vm_compute; reflexivity.
Defined.

(** X7.  The main process records a pushed event once in its buffer,
    except an event whose name has the key of the channel ['message']
    (the string ["message"], but also the array [["message"]]): the
    client emits that one twice on the channel the buffer listens to,
    and it is recorded twice.  This holds however numbers are
    printed. *)
Theorem X7_event_named_message_recorded_twice
        (number_text : Z -> string) (w w' : State) (s : nat) (j : Json) :
  is_pushed_event j = true ->
  step w (WsMessage s (Text j)) = Some w' ->
  main_events number_text (emitted w') =
    if listens number_text "message" (event_name j)
    then record_event (record_event (main_events number_text (emitted w))
                                    (normalized j (now w)))
                      (normalized j (now w))
    else record_event (main_events number_text (emitted w)) (normalized j (now w)).
Proof.
  intros Hp Hs.
  apply step_message_inv in Hs as (k & Hk & _ & ->).
  rewrite (deliver_pushed k j w Hp), (on_message_pushed j w Hp).
  simpl. unfold main_events. rewrite <- app_assoc, fold_left_app. simpl.
  unfold main_listener at 1 2. simpl. reflexivity.
Qed.

Lemma X7_event_named_message_recorded_twice_witness :
  is_pushed_event event_named_by_array = true /\
  step ready (WsMessage 0 (Text event_named_by_array)) =
    Some (on_message (Text event_named_by_array) ready) /\
  main_events decimal (emitted (on_message (Text event_named_by_array) ready)) =
    [normalized event_named_by_array 0; normalized event_named_by_array 0].
Proof.
  split; [reflexivity|]. split; [vm_compute; reflexivity|].
  rewrite (X7_event_named_message_recorded_twice decimal ready _ 0 event_named_by_array);
    vm_compute; reflexivity.
Defined.

(** The same with the name a string, and an event of another name,
    recorded once. *)
Example named_message_scenario :
  main_events decimal <$> observe emitted (handshake ++ [WsMessage 0 (Text event_named_message)]) =
    Some [normalized event_named_message 0; normalized event_named_message 0] /\
  main_events decimal <$> observe emitted (handshake ++ [WsMessage 0 (Text cron_finished)]) =
    Some [normalized cron_finished 0].
Proof. split; vm_compute; reflexivity. Qed.

(** ** Frames that are neither events nor answers *)

Lemma on_message_other (j : Json) (w : State) :
  nullish j = false ->
  is_str (prop "type" j) "event" = false ->
  is_connect_reply j = false ->
  on_message (Text j) w =
    log (LogMessage (prop "type" j)
                    (or_else (prop "event" j) (prop "method" j))) w.
Proof.
  intros Hn Ht Hr. unfold is_connect_reply in Hr. rewrite Hn in Hr. simpl in Hr.
  unfold on_message, handle_message. rewrite Hn, Ht.
  destruct (is_str (prop "type" j) "res"); [|reflexivity].
  simpl in Hr. now rewrite Hr.
Qed.

(** X8.  A frame that parses, is not an event, is not a reply to
    [connect], and bears the id of no call that still listens on the
    socket it arrives on (a stray response, a second copy of a response
    that was handled, a request, a frame without type) is ignored: a
    console line apart, the state is what it was. *)
Theorem X8_stray_frame_ignored (w w' : State) (s : nat) (j : Json) :
  nullish j = false ->
  is_str (prop "type" j) "event" = false ->
  is_connect_reply j = false ->
  (forall sock h c id,
     sockets w !! s = Some sock -> In h (listeners sock) ->
     calls w !! h = Some c -> corr c = Some id -> answers id j = false) ->
  step w (WsMessage s (Text j)) = Some w' ->
  w' = log (LogMessage (prop "type" j)
                       (or_else (prop "event" j) (prop "method" j))) w.
Proof.
  intros Hn Ht Hr Hno Hs.
  apply step_message_inv in Hs as (k & Hk & _ & ->).
  unfold deliver. rewrite (on_message_other j w Hn Ht Hr).
  pose proof (Hno k) as Hin. clear Hno.
  revert Hin. generalize (listeners k). intros ls.
  induction ls as [|h ls IH]; intros Hin; simpl; [reflexivity|].
  replace (run_listener (Text j) _ h) with
    (log (LogMessage (prop "type" j) (or_else (prop "event" j) (prop "method" j))) w).
  - apply IH. intros h' c id Hk' Hh'. apply Hin; [exact Hk' | now right].
  - unfold run_listener. cbn [calls log].
    destruct (calls w !! h) as [c|] eqn:Ec; [|reflexivity].
    destruct (corr c) as [id|] eqn:Eid; [|reflexivity].
    rewrite call_handler_verdict. unfold verdict.
    now rewrite Hn, (Hin h c id Hk (or_introl eq_refl) Ec Eid).
Qed.

(** At a response with an id that no call holds, and at a second copy
    of the response to a call that was answered. *)
Lemma X8_stray_frame_ignored_witness :
  step one_call_pending (WsMessage 0 (Text stray_response)) =
    Some (log (LogMessage (JStr "res") JUndefined) one_call_pending) /\
  step answered (WsMessage 0 (Text first_answer)) =
    Some (log (LogMessage (JStr "res") JUndefined) answered).
Proof.
  split.
  - assert (is_Some (step one_call_pending (WsMessage 0 (Text stray_response))))
      as [w' Hs] by (vm_compute; eauto).
    rewrite Hs. f_equal.
    apply (X8_stray_frame_ignored one_call_pending w' 0 stray_response);
      [reflexivity | reflexivity | reflexivity | | exact Hs].
    intros sock h c id [= <-] [<- | []] [= <-] [= <-]. reflexivity.
  - assert (is_Some (step answered (WsMessage 0 (Text first_answer))))
      as [w' Hs] by (vm_compute; eauto).
    rewrite Hs. f_equal.
    apply (X8_stray_frame_ignored answered w' 0 first_answer);
      [reflexivity | reflexivity | reflexivity | | exact Hs].
    intros sock h c id [= <-] [].
Defined.

(** ** The connected flag *)

Lemma sendRequest_connected (method : string) (params : Json) (w : State) :
  connected (sendRequest method params w) = connected w.
Proof. by_cases. Qed.

Lemma step_connected (w w' : State) (e : Event) :
  step w e = Some w' -> connected w' = flag_after (connected w) e.
Proof.
  destruct e as [| |m p|s|s data|s err|s|ms|t]; intros Hs; simpl.
  - injection Hs as <-. now destruct (connect_summary w) as (_ & _ & _ & _ & _ & ->).
  - injection Hs as <-. now destruct (disconnect_summary w) as (_ & _ & _ & _ & _ & -> & _).
  - injection Hs as <-. unfold call. destruct (isConnected w); [|reflexivity].
    destruct (ws w); [|reflexivity]. by_cases.
  - apply step_open_inv in Hs as ->. by_cases.
  - apply step_message_inv in Hs as (k & _ & _ & ->). unfold deliver.
    destruct (fold_listeners_ocl data (listeners k) (on_message data w))
      as (_ & _ & -> & _).
    destruct data as [|j]; [reflexivity|].
    destruct (is_connect_reply j) eqn:Er; cbn [andb].
    + rewrite (on_message_connect_reply j w Er). cbv zeta.
      destruct (truthy (prop "ok" j)); [reflexivity|].
      now destruct (close_current_fields
                      (log (LogHandshakeFailed (prop "error" j))
                         (log (LogMessage (prop "type" j)
                                 (or_else (prop "event" j) (prop "method" j))) w)))
        as (_ & -> & _).
    + unfold is_connect_reply in Er. unfold on_message, handle_message.
      destruct (nullish j); [reflexivity|]. simpl in Er.
      destruct (is_str (prop "type" j) "event") eqn:Et.
      * destruct (is_str (prop "event" j) "connect.challenge"); [|reflexivity].
        now rewrite sendRequest_connected.
      * destruct (is_str (prop "type" j) "res"); [|reflexivity].
        simpl in Er. now rewrite Er.
  - apply step_error_inv in Hs as ->. reflexivity.
  - now apply step_close_connected in Hs.
  - injection Hs as <-. reflexivity.
  - apply step_fire_inv in Hs as (tm & _ & _ & _ & ->).
    destruct (callback tm) as [|k]; simpl.
    + by_cases.
    + unfold reject.
      now destruct (ocl_trans _ _ _
                      (off_ocl k (set_timers (<[t:=with_status Fired tm]> (timers w)) w))
                      (settle_ocl k (Rejected Timeout) _))
        as (_ & _ & -> & _).
Qed.

Lemma run_connected (w0 w : State) (es : list Event) :
  run w0 es = Some w -> connected w = fold_left flag_after es (connected w0).
Proof.
  revert w0. induction es as [|e es IH]; intros w0; simpl.
  - now intros [= <-].
  - destruct (step w0 e) as [w1|] eqn:Es; [|discriminate].
    intros Hr. rewrite (IH w1 Hr). now rewrite (step_connected w0 w1 e Es).
Qed.

(** X9.  [connected] is a function of the events the client has seen:
    it is true exactly when the last reply to [connect] with a truthy
    [ok], on whatever socket it arrived, came after the last close of
    any socket and the last [disconnect()]. *)
Theorem X9_connected_flag_follows_events
        (tok : option string) (plat : string) (es : list Event) (w : State) :
  run (init tok plat) es = Some w ->
  connected w = fold_left flag_after es false.
Proof. intros Hr. now rewrite (run_connected _ _ _ Hr). Qed.

Lemma X9_connected_flag_follows_events_witness :
  run (init None "linux") handshake = Some ready /\
  connected ready = fold_left flag_after handshake false.
Proof.
  split; [vm_compute; reflexivity|].
  apply (X9_connected_flag_follows_events None "linux" handshake ready).
  vm_compute; reflexivity.
Defined.

(** ** C7: a refused handshake *)

Lemma flag_stays_clear (es : list Event) :
  forallb unaccepted es = true -> fold_left flag_after es false = false.
Proof.
  induction es as [|e es IH]; simpl; [reflexivity|].
  intros H. apply andb_prop in H as [He Hes].
  replace (flag_after false e) with false; [auto|].
  unfold unaccepted in He. apply negb_true_iff in He.
  destruct e as [| |m p|s|s [|j]|s err|s|ms|t]; try reflexivity.
  simpl in *. now rewrite He.
Qed.

Lemma close_emits (s : nat) (f : WebSocket -> WebSocket) (w : State) :
  emitted (on_close (on_socket s f w)) =
    emitted w ++ [mkEmission (JStr "disconnected") NoArg].
Proof. by_cases. Qed.

Lemma not_connected_not_ready (w : State) : connected w = false -> isConnected w = false.
Proof. unfold isConnected. now intros ->. Qed.

(** C7 (as the code has it).  A reply to [connect] whose [ok] is falsy
    is written to the console with its error and the current socket is
    closed.  No notification is emitted; [connected] is not touched (it
    is not set) and [isConnected()] is false once the reply is handled.
    The close of that socket can then be delivered; it clears
    [connected] and emits [disconnected].  The refusal never makes the
    client ready: if the handshake had not been accepted before, the
    client is not ready at any later time until a reply to [connect]
    with a truthy [ok] arrives, and in any case it is not ready from
    the close of a socket on until such a reply arrives. *)
Theorem C7_refused_handshake_logs_and_closes (w w' : State) (s : nat) (j : Json) :
  is_connect_reply j = true ->
  truthy (prop "ok" j) = false ->
  step w (WsMessage s (Text j)) = Some w' ->
  emitted w' = emitted w /\
  console w' = console w ++
    [LogMessage (prop "type" j) (or_else (prop "event" j) (prop "method" j));
     LogHandshakeFailed (prop "error" j)] /\
  connected w' = connected w /\
  isConnected w' = false /\
  (forall s0 k0, ws w = Some s0 -> sockets w !! s0 = Some k0 ->
     readyState <$> (sockets w' !! s0) = Some (closing (readyState k0)) /\
     (readyState k0 <> CLOSED ->
      exists w2, step w' (WsClose s0) = Some w2 /\
                 connected w2 = false /\ isConnected w2 = false /\
                 emitted w2 = emitted w' ++ [mkEmission (JStr "disconnected") NoArg])) /\
  (connected w = false ->
   forall es w'', run w' es = Some w'' -> forallb unaccepted es = true ->
     connected w'' = false /\ isConnected w'' = false) /\
  (forall es1 s1 es2 w'', run w' (es1 ++ WsClose s1 :: es2) = Some w'' ->
     forallb unaccepted es2 = true ->
     connected w'' = false /\ isConnected w'' = false).
Proof.
  intros Hr Hok Hs.
  pose proof (step_connected _ _ _ Hs) as Hflag.
  simpl in Hflag. rewrite Hr, Hok in Hflag. simpl in Hflag.
  apply step_message_inv in Hs as (k & Hk & _ & ->).
  unfold deliver in *. rewrite (on_message_connect_reply j w Hr) in *. cbv zeta in *.
  rewrite Hok in *.
  remember (log (LogHandshakeFailed (prop "error" j))
              (log (LogMessage (prop "type" j)
                               (or_else (prop "event" j) (prop "method" j))) w))
    as w2 eqn:E2.
  pose proof (fold_listeners_ocl (Text j) (listeners k) (close_current w2)) as H.
  pose proof (ws_is_open_ocl _ _ H) as Ho.
  destruct H as (Hws & Hrt & Hcn & Htk & Hrq & Hpl & Hnw & Htm & Hem & Hco & Hrs & Hsn).
  destruct (close_current_fields w2) as (F1 & F2 & F3 & F4 & F5 & F6 & F7 & F8).
  assert (ws w2 = ws w /\ connected w2 = connected w /\ emitted w2 = emitted w /\
          sockets w2 = sockets w /\
          console w2 = console w ++
            [LogMessage (prop "type" j) (or_else (prop "event" j) (prop "method" j));
             LogHandshakeFailed (prop "error" j)]) as (G1 & G2 & G3 & G4 & G5).
  { subst w2. simpl. repeat split; auto. now rewrite <- app_assoc. }
  set (w1 := fold_left (run_listener (Text j)) (listeners k) (close_current w2)) in *.
  assert (forall s0 k0, ws w = Some s0 -> sockets w !! s0 = Some k0 ->
            readyState <$> (sockets w1 !! s0) = Some (closing (readyState k0))) as Hcl.
  { intros s0 k0 Hw Hk0. rewrite <- list_lookup_fmap, Hrs, list_lookup_fmap.
    apply F8; congruence. }
  split; [congruence|]. split; [congruence|]. split; [congruence|].
  split; [unfold isConnected; rewrite Ho, F7; apply andb_false_r|].
  split; [|split].
  - intros s0 k0 Hw Hk0. split; [now apply Hcl|]. intros Hopen.
    pose proof (Hcl s0 k0 Hw Hk0) as Hst.
    destruct (sockets w1 !! s0) as [k1|] eqn:Ek1; [|discriminate].
    injection Hst as Hst.
    assert (is_Some (step w1 (WsClose s0))) as [w3 Hs3].
    { simpl. rewrite Ek1, Hst. destruct (readyState k0); simpl; eauto.
      now destruct Hopen. }
    exists w3. split; [exact Hs3|].
    pose proof (step_close_connected _ _ _ Hs3) as Hc3.
    split; [exact Hc3|]. split; [now apply not_connected_not_ready|].
    apply step_close_inv in Hs3 as ->. apply close_emits.
  - intros Hclear es w'' Hrun Hes.
    assert (connected w'' = false) as Hc.
    { rewrite (run_connected _ _ _ Hrun), Hflag, Hclear. now apply flag_stays_clear. }
    split; [exact Hc | now apply not_connected_not_ready].
  - intros es1 s1 es2 w'' Hrun Hes.
    assert (connected w'' = false) as Hc.
    { rewrite (run_connected _ _ _ Hrun), fold_left_app. simpl.
      now apply flag_stays_clear. }
    split; [exact Hc | now apply not_connected_not_ready].
Qed.

(** At the refusal of a first handshake, followed by a second
    connection that opens while the first one closes. *)
Lemma C7_refused_handshake_logs_and_closes_witness :
  is_connect_reply refusal = true /\
  truthy (prop "ok" refusal) = false /\
  step awaiting_reply (WsMessage 0 (Text refusal)) = Some refused /\
  emitted refused = emitted awaiting_reply /\
  isConnected <$> run refused [Connect; WsOpen 1; WsClose 0] = Some false.
Proof.
  split; [reflexivity|]. split; [reflexivity|].
  split; [vm_compute; reflexivity|].
  destruct (C7_refused_handshake_logs_and_closes awaiting_reply refused 0 refusal)
    as (He & _ & _ & _ & _ & Hnever & _);
    [reflexivity | reflexivity | vm_compute; reflexivity |].
  split; [exact He|].
  assert (is_Some (run refused [Connect; WsOpen 1; WsClose 0])) as [w3 Hr]
    by (vm_compute; eauto).
  rewrite Hr. simpl. f_equal.
  exact (proj2 (Hnever eq_refl _ w3 Hr eq_refl)).
Defined.

(** C7, counterexample: the gateway refuses the handshake; nothing is
    emitted, the failure is only on the console, and the socket is
    closing. *)
Lemma C7_refusal_emits_no_error :
  observe (fun w => (emitted w, console w, readyState <$> sockets w))
          [Connect; WsOpen 0; WsMessage 0 (Text (challenge "abc"));
           WsMessage 0 (Text refusal)] =
    Some ([],
          [LogOpen; LogMessage (JStr "event") (JStr "connect.challenge");
           LogChallenge; LogMessage (JStr "res") (JStr "connect");
           LogHandshakeFailed (JObj [("code", JStr "UNAUTHORIZED")])],
          [CLOSING])%string.
Proof. vm_compute. reflexivity. Qed.

(** ** A call and its response *)

Lemma registered_same_listeners (k s : nat) (w w' : State) :
  listeners <$> sockets w' = listeners <$> sockets w ->
  registered k s w -> registered k s w'.
Proof.
  intros E (sock & Hs & Hin).
  assert (listeners <$> (sockets w' !! s) = Some (listeners sock)) as H
    by (rewrite <- list_lookup_fmap, E, list_lookup_fmap, Hs; reflexivity).
  destruct (sockets w' !! s) as [sock'|] eqn:Es'; [|discriminate].
  injection H as H. exists sock'. split; [exact Es'|]. now rewrite H.
Qed.

Lemma on_message_listeners (data : Frame) (w : State) :
  listeners <$> sockets (on_message data w) = listeners <$> sockets w.
Proof. by_cases; eapply fmap_insert_same; eauto. Qed.

Lemma disconnect_listeners (w : State) :
  listeners <$> sockets (disconnect w) = listeners <$> sockets w.
Proof. by_cases; eapply fmap_insert_same; eauto. Qed.

Lemma on_socket_readyState_listeners (s : nat) (r : ReadyState) (w : State) :
  listeners <$> sockets (on_socket s (with_readyState r) w) = listeners <$> sockets w.
Proof. by_cases; eapply fmap_insert_same; eauto. Qed.

Lemma connect_registered (k s : nat) (w : State) :
  registered k s w -> registered k s (connect w).
Proof.
  intros (sock & Hs & Hin). unfold connect. destruct (ws_is_open w).
  - exists sock. auto.
  - exists sock. split; [|exact Hin]. simpl. now apply lookup_app_l_Some.
Qed.

Lemma off_registered (h k s : nat) (w : State) :
  h <> k -> registered k s w -> registered k s (off h w).
Proof.
  intros Hne (sock & Hs & Hin). unfold off, on_socket.
  destruct (ws w) as [s0|]; [|exists sock; auto].
  destruct (sockets w !! s0) as [sock0|] eqn:E0; [|exists sock; auto].
  unfold registered. simpl. destruct (decide (s0 = s)) as [->|Hs0].
  - rewrite list_lookup_insert_eq by (eapply lookup_lt_Some; eauto).
    eexists. split; [reflexivity|]. simpl.
    assert (sock0 = sock) as -> by congruence.
    unfold drop_listener. apply filter_In. split; [exact Hin|].
    apply negb_true_iff, Nat.eqb_neq. congruence.
  - rewrite list_lookup_insert_ne by assumption. exists sock. auto.
Qed.

Lemma settle_registered (h k s : nat) (o : Settlement) (w : State) :
  registered k s w -> registered k s (settle h o w).
Proof.
  intros (sock & Hs & Hin). exists sock.
  destruct (settle_sockets h o w) as (-> & _). auto.
Qed.

Lemma fold_listeners_registered (data : Frame) (ls : list nat) (w : State)
      (k s : nat) (id : string) (o : Settlement) :
  calls w !! k = Some {| corr := Some id; outcome := o |} ->
  verdict id data = None ->
  registered k s w ->
  registered k s (fold_left (run_listener data) ls w).
Proof.
  intros Hc Hv. revert w Hc. induction ls as [|h ls IH]; intros w Hc Hr; [exact Hr|].
  simpl. destruct (decide (h = k)) as [->|Hne].
  - replace (run_listener data w k) with w; [now apply IH|].
    unfold run_listener. rewrite Hc. simpl. now rewrite call_handler_verdict, Hv.
  - apply IH.
    + now rewrite run_listener_other.
    + unfold run_listener. destruct (calls w !! h) as [c|]; [|exact Hr].
      destruct (corr c) as [id'|]; [|exact Hr].
      rewrite call_handler_verdict. destruct (verdict id' data); [|exact Hr].
      now apply settle_registered, off_registered.
Qed.

Lemma call_sends (method : string) (params : Json) (w : State) (s : nat) :
  isConnected w = true -> ws w = Some s ->
  exists sock,
    sockets w !! s = Some sock /\
    sockets (call method params w) =
      <[s := {| readyState := readyState sock;
                listeners := listeners sock ++ [length (calls w)];
                sent := sent sock ++
                  [mkRequest (call_id (requestId w)) method params] |}]>
        (sockets w).
Proof.
  intros Hi Hw. unfold call. rewrite Hi, Hw.
  unfold isConnected, ws_is_open in Hi. rewrite Hw in Hi.
  apply andb_prop in Hi as [_ Hi].
  destruct (sockets w !! s) as [sock|] eqn:Es; [|discriminate].
  exists sock. split; [reflexivity|].
  unfold ws_on_message, ws_send, on_socket. simpl. rewrite Es. simpl.
  rewrite list_lookup_insert_eq by (eapply lookup_lt_Some; eauto). simpl.
  now rewrite list_insert_insert_eq.
Qed.

Lemma call_registered (method : string) (params : Json) (w : State) (k s : nat) :
  registered k s w -> registered k s (call method params w).
Proof.
  intros (sock & Hs & Hin). unfold call.
  destruct (isConnected w) eqn:Hi; [|exists sock; auto].
  destruct (ws w) as [s0|] eqn:Hw; [|exists sock; auto].
  destruct (call_sends method params w s0 Hi Hw) as (sock0 & E0 & E).
  unfold call in E. rewrite Hi, Hw in E.
  match goal with |- registered _ _ ?w1 =>
    change (exists sock', sockets w1 !! s = Some sock' /\ In k (listeners sock'));
    change (sockets w1) with
      (sockets (setTimeout (CallTimeout (length (calls w))) callTimeout
         (ws_send s0 (mkRequest (call_id (requestId w)) method params)
            (ws_on_message s0 (length (calls w))
               (set_calls (calls w ++ [{| corr := Some (call_id (requestId w));
                                          outcome := Pending |}])
                  (set_requestId (post_incr (requestId w)) w))))))
  end.
  rewrite E. destruct (decide (s0 = s)) as [->|Hne].
  - rewrite list_lookup_insert_eq by (eapply lookup_lt_Some; eauto).
    eexists. split; [reflexivity|]. simpl.
    assert (sock0 = sock) as -> by congruence. apply in_or_app. now left.
  - rewrite list_lookup_insert_ne by assumption. exists sock. auto.
Qed.

Lemma registered_step (k t s : nat) (id : string) (deadline : N)
      (w w' : State) (e : Event) :
  in_flight k t id deadline w -> registered k s w ->
  quiet id t e = true -> step w e = Some w' -> registered k s w'.
Proof.
  intros [Hc _ Ho] Hr Hq Hs.
  destruct e as [| |m p|s0|s0 data|s0 err|s0|ms|t0].
  - injection Hs as <-. now apply connect_registered.
  - injection Hs as <-.
    eapply registered_same_listeners; [apply disconnect_listeners | exact Hr].
  - injection Hs as <-. now apply call_registered.
  - apply step_open_inv in Hs as ->. unfold on_open.
    eapply registered_same_listeners; [|exact Hr].
    apply (on_socket_readyState_listeners s0 OPEN w).
  - apply step_message_inv in Hs as (sock & _ & _ & ->). unfold deliver.
    simpl in Hq. destruct (verdict id data) eqn:Hv; [discriminate|].
    eapply fold_listeners_registered; [| exact Hv |].
    + destruct (on_message_summary data w) as (-> & _). exact Hc.
    + eapply registered_same_listeners; [apply on_message_listeners | exact Hr].
  - apply step_error_inv in Hs as ->. exact Hr.
  - apply step_close_inv in Hs as ->.
    eapply registered_same_listeners; [|exact Hr].
    unfold on_close, scheduleReconnect.
    destruct (reconnectTimer _); apply (on_socket_readyState_listeners s0 CLOSED w).
  - injection Hs as <-. exact Hr.
  - apply step_fire_inv in Hs as (tm & Et & _ & _ & ->).
    destruct (callback tm) as [|k0] eqn:Ecb; simpl.
    + apply connect_registered. exact Hr.
    + assert (k0 <> k) as Hne.
      { intros ->. pose proof (Ho t0 tm Et Ecb) as ->.
        simpl in Hq. now rewrite Nat.eqb_refl in Hq. }
      unfold reject. apply settle_registered, off_registered; auto.
Qed.

Lemma registered_run (k t s : nat) (id : string) (deadline : N)
      (w w' : State) (es : list Event) :
  in_flight k t id deadline w -> registered k s w ->
  forallb (quiet id t) es = true -> run w es = Some w' -> registered k s w'.
Proof.
  revert w. induction es as [|e es IH]; intros w Hf Hr; simpl.
  - now intros _ [= <-].
  - intros Hq. apply andb_prop in Hq as [Hq Hqs].
    destruct (step w e) as [w1|] eqn:Es; [|discriminate].
    apply IH; auto.
    + eapply in_flight_step; eauto.
    + eapply registered_step; eauto.
Qed.

(** X10.  A call made on a connected client puts one request on the
    current socket, with the method and the params as given and the id
    [call-N] of the counter.  If the events that follow bring no frame
    with a verdict for that id and its timer does not fire, then the
    first response bearing the id that arrives on that socket settles
    the promise: resolved with the payload when [ok] is truthy,
    rejected with the error otherwise.  Nothing that happens afterwards
    changes it, its timeout firing included. *)
Theorem X10_call_settled_by_its_response
        (w w1 w2 : State) (s : nat) (method : string) (params : Json)
        (es : list Event) (j : Json) :
  reachable w ->
  isConnected w = true ->
  ws w = Some s ->
  run (call method params w) es = Some w1 ->
  forallb (quiet (call_id (requestId w)) (length (timers w))) es = true ->
  nullish j = false ->
  answers (call_id (requestId w)) j = true ->
  step w1 (WsMessage s (Text j)) = Some w2 ->
  (exists sock sock',
     sockets w !! s = Some sock /\
     sockets (call method params w) !! s = Some sock' /\
     sent sock' = sent sock ++ [mkRequest (call_id (requestId w)) method params]) /\
  calls w2 !! length (calls w) =
    Some {| corr := Some (call_id (requestId w));
            outcome := if truthy (prop "ok" j)
                       then Resolved (prop "payload" j)
                       else Rejected (ResponseError (prop "error" j)) |} /\
  (forall es' w3, run w2 es' = Some w3 ->
     calls w3 !! length (calls w) = calls w2 !! length (calls w)).
Proof.
  intros Hreach Hi Hw Hr Hq Hn Ha Hs.
  pose proof (in_flight_call method params w (wf_reachable w Hreach) Hi) as Hf.
  destruct (call_sends method params w s Hi Hw) as (sock & Es & Ecall).
  assert (s < length (sockets w))%nat as Hlt by (eapply lookup_lt_Some; eauto).
  assert (registered (length (calls w)) s (call method params w)) as Hreg.
  { eexists. rewrite Ecall, list_lookup_insert_eq by assumption.
    split; [reflexivity|]. simpl. apply in_or_app. right. now left. }
  pose proof (in_flight_run _ _ _ _ _ _ _ Hf Hq Hr) as [Hc _ _].
  destruct (registered_run _ _ _ _ _ _ _ _ Hf Hreg Hq Hr) as (sock1 & Es1 & Hin).
  apply step_message_inv in Hs as (sock1' & Es1' & _ & ->).
  assert (sock1' = sock1) as -> by congruence.
  assert (calls (deliver sock1 (Text j) w1) !! length (calls w) =
          Some {| corr := Some (call_id (requestId w));
                  outcome := if truthy (prop "ok" j)
                             then Resolved (prop "payload" j)
                             else Rejected (ResponseError (prop "error" j)) |}) as Hset.
  { unfold deliver. apply fold_listeners_settles; auto.
    - now destruct (on_message_summary (Text j) w1) as (-> & _).
    - unfold verdict. now rewrite Hn, Ha. }
  split; [|split].
  - eexists sock, _. split; [exact Es|].
    rewrite Ecall, list_lookup_insert_eq by assumption.
    split; reflexivity.
  - exact Hset.
  - intros es' w3 Hr'. rewrite Hset.
    apply (settled_is_final _ _ _ _ _ Hr' Hset).
    simpl. destruct (truthy (prop "ok" j)); discriminate.
Qed.

Lemma X10_call_settled_by_its_response_witness :
  reachable ready /\
  isConnected ready = true /\
  ws ready = Some 0%nat /\
  run (call "cron.list" (JObj []) ready) [Elapse 10] =
    Some (set_now 10 (call "cron.list" (JObj []) ready)) /\
  forallb (quiet (call_id (requestId ready)) (length (timers ready)))
          [Elapse 10] = true /\
  nullish first_answer = false /\
  answers (call_id (requestId ready)) first_answer = true /\
  calls (deliver (mkSocket OPEN [0%nat] [])
           (Text first_answer)
           (set_now 10 (call "cron.list" (JObj []) ready))) !! 0%nat =
    Some {| corr := Some "call-1"%string; outcome := Resolved (JStr "first") |}.
Proof.
  split; [exact ready_reachable|]. split; [reflexivity|]. split; [reflexivity|].
  split; [vm_compute; reflexivity|]. split; [reflexivity|].
  split; [reflexivity|]. split; [reflexivity|].
  eapply (X10_call_settled_by_its_response
            ready (set_now 10 (call "cron.list" (JObj []) ready)) _ 0
            "cron.list" (JObj []) [Elapse 10] first_answer).
  - exact ready_reachable.
  - reflexivity.
  - reflexivity.
  - vm_compute; reflexivity.
  - reflexivity.
  - reflexivity.
  - reflexivity.
  - vm_compute; reflexivity.
Defined.

(** ** The ids on the wire *)

Lemma req_id_inj (m n : N) : req_id m = req_id n -> m = n.
Proof.
  unfold req_id. intros H. apply show_inj.
  cbv [String.append] in H. congruence.
Qed.

Lemma req_id_not_call_id (m n : N) : req_id m <> call_id n.
Proof. unfold req_id, call_id. cbv [String.append]. discriminate. Qed.

Lemma numbered_inj (m n : N) (id : string) : numbered m id -> numbered n id -> m = n.
Proof.
  intros [-> | ->] [H | H].
  - now apply req_id_inj.
  - now apply req_id_not_call_id in H.
  - symmetry in H. now apply req_id_not_call_id in H.
  - now apply call_id_inj.
Qed.

Lemma on_socket_wire (s : nat) (f : WebSocket -> WebSocket) (w : State) :
  (forall sock, sent (f sock) = sent sock) ->
  wire (on_socket s f w) = wire w.
Proof.
  intros Hf. unfold wire, on_socket.
  destruct (sockets w !! s) as [sock|] eqn:E; [|reflexivity].
  simpl. eapply fmap_insert_same; eauto.
Qed.

Lemma ocl_wire (w w' : State) :
  only_calls_and_listeners w w' -> sends_nothing w w'.
Proof.
  intros (_ & _ & _ & _ & Hrq & _ & _ & _ & _ & _ & _ & Hsn). now split.
Qed.

Lemma ws_send_wire (s0 : nat) (r0 : Request) (w : State) (q : list Request) :
  wire w !! s0 = Some q ->
  wire (ws_send s0 r0 w) = <[s0 := q ++ [r0]]> (wire w).
Proof.
  unfold wire, ws_send, on_socket. rewrite list_lookup_fmap.
  destruct (sockets w !! s0) as [sock|] eqn:E; [|discriminate].
  simpl. intros [= <-]. now rewrite list_fmap_insert.
Qed.

Lemma ws_is_open_wire (w : State) :
  ws_is_open w = true -> exists s0 q, ws w = Some s0 /\ wire w !! s0 = Some q.
Proof.
  unfold ws_is_open, wire. destruct (ws w) as [s0|]; [|discriminate].
  destruct (sockets w !! s0) as [sock|] eqn:E; [|discriminate].
  intros _. exists s0, (sent sock). split; [reflexivity|].
  now rewrite list_lookup_fmap, E.
Qed.

Lemma sendRequest_wire (method : string) (params : Json) (w : State) :
  sends_nothing w (sendRequest method params w) \/
  sends_one req_id w (sendRequest method params w).
Proof.
  unfold sendRequest. destruct (ws_is_open w) eqn:Eo; [|left; split; reflexivity].
  destruct (ws_is_open_wire w Eo) as (s0 & q & Ew & Eq). rewrite Ew.
  right. exists s0, q, (mkRequest (req_id (requestId w)) method params).
  split; [exact Ew|]. split; [exact Eq|]. split; [|split; [reflexivity|]].
  - now apply (ws_send_wire s0 _ (set_requestId (post_incr (requestId w)) w) q).
  - unfold ws_send, on_socket. simpl. now destruct (sockets w !! s0).
Qed.

Lemma on_message_wire (data : Frame) (w : State) :
  sends_nothing w (on_message data w) \/ sends_one req_id w (on_message data w).
Proof.
  unfold on_message. destruct data as [|j]; [left; split; reflexivity|].
  destruct (nullish j); [left; split; reflexivity|].
  unfold handle_message.
  destruct (is_str (prop "type" j) "event").
  - destruct (is_str (prop "event" j) "connect.challenge");
      [|left; split; reflexivity].
    match goal with |- context [sendRequest ?m ?p ?w1] =>
      destruct (sendRequest_wire m p w1) as [H | H] end; [now left | now right].
  - destruct (is_str (prop "type" j) "res"); [|left; split; reflexivity].
    destruct (is_str (prop "method" j) "connect"); [|left; split; reflexivity].
    destruct (truthy (prop "ok" j)); [left; split; reflexivity|].
    left. split.
    + unfold close_current. simpl. destruct (ws w) as [s|]; [|reflexivity].
      unfold ws_close.
      match goal with |- wire (on_socket ?s ?f ?w1) = _ =>
        exact (on_socket_wire s f w1 (fun _ => eq_refl)) end.
    + by_cases.
Qed.

Lemma connect_wire (w : State) :
  sends_nothing w (connect w) \/ opens_socket w (connect w).
Proof.
  unfold connect. destruct (ws_is_open w); [left; split; reflexivity|].
  right. split; [|reflexivity]. unfold wire. simpl. now rewrite fmap_app.
Qed.

Lemma call_wire (method : string) (params : Json) (w : State) :
  sends_nothing w (call method params w) \/ sends_one call_id w (call method params w).
Proof.
  destruct (isConnected w) eqn:Hi.
  - right. unfold isConnected in Hi. apply andb_prop in Hi as [Hc Ho].
    destruct (ws_is_open_wire w Ho) as (s0 & q & Ew & Eq).
    assert (isConnected w = true) as Hi by (unfold isConnected; now rewrite Hc, Ho).
    destruct (call_sends method params w s0 Hi Ew) as (sock & Es & E).
    destruct (call_summary method params w) as (_ & _ & H). rewrite Hi in H.
    destruct H as (_ & _ & Hq).
    exists s0, q, (mkRequest (call_id (requestId w)) method params).
    split; [exact Ew|]. split; [exact Eq|]. split; [|split; [reflexivity | exact Hq]].
    unfold wire in *. rewrite E, list_fmap_insert. simpl.
    rewrite list_lookup_fmap, Es in Eq. simpl in Eq. congruence.
  - left. unfold call. rewrite Hi. split; reflexivity.
Qed.

(** The wire after one event. *)
Lemma step_wire (w w' : State) (e : Event) :
  step w e = Some w' ->
  sends_nothing w w' \/ sends_one req_id w w' \/ sends_one call_id w w' \/
  opens_socket w w'.
Proof.
  destruct e as [| |m p|s|s data|s err|s|ms|t]; intros Hs.
  - injection Hs as <-. destruct (connect_wire w); auto.
  - injection Hs as <-. left. split; [|by_cases].
    unfold disconnect.
    set (w1 := match reconnectTimer w with
               | Some t => set_reconnectTimer None (clearTimeout t w)
               | None => w
               end).
    assert (wire w1 = wire w) as E1.
    { subst w1. destruct (reconnectTimer w) as [t|]; [|auto].
      unfold clearTimeout. destruct (timers w !! t) as [tm|]; [|auto].
      destruct (status tm); auto. }
    rewrite <- E1. destruct (ws w1) as [s|]; [|reflexivity].
    now apply (on_socket_wire s _ w1).
  - injection Hs as <-. destruct (call_wire m p w); auto.
  - apply step_open_inv in Hs as ->. left. split; [|by_cases].
    now apply (on_socket_wire s _ w).
  - apply step_message_inv in Hs as (k & _ & _ & ->). unfold deliver.
    destruct (ocl_wire _ _ (fold_listeners_ocl data (listeners k) (on_message data w)))
      as [A B].
    destruct (on_message_wire data w)
      as [[C D] | (s0 & q & r0 & H1 & H2 & H3 & H4 & H5)].
    + left. split; congruence.
    + right; left. exists s0, q, r0. repeat split; congruence.
  - apply step_error_inv in Hs as ->. left. split; reflexivity.
  - apply step_close_inv in Hs as ->. left. split; [|by_cases].
    unfold on_close, scheduleReconnect.
    destruct (reconnectTimer _); now apply (on_socket_wire s _ w).
  - injection Hs as <-. left. split; reflexivity.
  - apply step_fire_inv in Hs as (tm & _ & _ & _ & ->).
    destruct (callback tm) as [|k]; simpl.
    + destruct (connect_wire (log LogReconnecting
                  (set_timers (<[t:=with_status Fired tm]> (timers w)) w)))
        as [H | H]; auto.
    + left. unfold reject.
      apply (ocl_wire (set_timers (<[t:=with_status Fired tm]> (timers w)) w)).
      eapply ocl_trans; [apply off_ocl | apply settle_ocl].
Qed.

(** A request of [w'] was already in [w] at the same place, or it is
    the one request this event sent, numbered by the counter of [w]. *)
Lemma step_sent_at (w w' : State) (e : Event) :
  step w e = Some w' ->
  requestId w <= requestId w' /\
  forall s i r, sent_at w' s i = Some r ->
    sent_at w s i = Some r \/
    (numbered (requestId w) (rq_id r) /\
     requestId w' = post_incr (requestId w) /\
     exists q, ws w = Some s /\ wire w !! s = Some q /\ i = length q).
Proof.
  intros Hs. pose proof (post_incr_mono (requestId w)) as Hm.
  assert (forall tag, (forall n, numbered n (tag n)) -> sends_one tag w w' ->
            requestId w <= requestId w' /\
            forall s i r, sent_at w' s i = Some r ->
              sent_at w s i = Some r \/
              (numbered (requestId w) (rq_id r) /\
               requestId w' = post_incr (requestId w) /\
               exists q, ws w = Some s /\ wire w !! s = Some q /\ i = length q)) as Hone.
  { intros tag Htag (s0 & q & r0 & H1 & H2 & H3 & H4 & H5).
    split; [lia|]. intros s i r. unfold sent_at. rewrite H3.
    destruct (decide (s0 = s)) as [<-|Hne].
    - rewrite list_lookup_insert_eq by (eapply lookup_lt_Some; eauto).
      rewrite H2. intros H.
      apply lookup_app_Some in H as [H | [Hl H]]; [now left|].
      apply list_lookup_singleton_Some in H as [Hz <-].
      right. rewrite H4. split; [apply Htag|]. split; [exact H5|].
      exists q. repeat split; auto. lia.
    - rewrite list_lookup_insert_ne by assumption. now left. }
  destruct (step_wire w w' e Hs) as [[A B] | [H | [H | [A B]]]].
  - split; [lia|]. intros s i r. unfold sent_at. rewrite A. now left.
  - apply (Hone req_id); [|exact H]. intros n. now left.
  - apply (Hone call_id); [|exact H]. intros n. now right.
  - split; [lia|]. intros s i r. unfold sent_at. rewrite A. left.
    destruct (wire w !! s) as [q|] eqn:E.
    + now rewrite (lookup_app_l_Some _ _ _ _ E) in H.
    + destruct ((wire w ++ [[]]) !! s) as [q'|] eqn:E'; [|discriminate].
      apply lookup_app_Some in E' as [E' | [_ E']]; [congruence|].
      apply list_lookup_singleton_Some in E' as [_ <-]. discriminate.
Qed.

Lemma wire_fresh_step (w w' : State) (e : Event) :
  wire_fresh w -> step w e = Some w' -> wire_fresh w'.
Proof.
  intros Hw Hs Hlt. destruct (step_sent_at w w' e Hs) as (Hle & Hcases).
  assert (requestId w < MAX_EXACT) as Hlt0 by lia.
  destruct (Hw Hlt0) as (Hnum & Huniq).
  assert (forall s i r, sent_at w' s i = Some r ->
            sent_at w s i = Some r \/
            (numbered (requestId w) (rq_id r) /\ requestId w' = requestId w + 1 /\
             exists q, ws w = Some s /\ wire w !! s = Some q /\ i = length q)) as Hc.
  { intros s i r H. destruct (Hcases s i r H) as [H0 | (H1 & H2 & H3)]; [now left|].
    right. repeat split; auto. rewrite H2. apply post_incr_below. now rewrite <- H2. }
  split.
  - intros s i r H. destruct (Hc s i r H) as [H0 | (H1 & H2 & _)].
    + destruct (Hnum s i r H0) as (n & Hn & Hid). exists n. split; [lia | exact Hid].
    + exists (requestId w). split; [lia | exact H1].
  - intros s1 i1 r1 s2 i2 r2 H1 H2 Hid.
    destruct (Hc s1 i1 r1 H1) as [A1 | (N1 & _ & q1 & W1 & Q1 & L1)];
      destruct (Hc s2 i2 r2 H2) as [A2 | (N2 & _ & q2 & W2 & Q2 & L2)].
    + eapply Huniq; eauto.
    + exfalso. destruct (Hnum s1 i1 r1 A1) as (n & Hn & Hnid).
      rewrite Hid in Hnid. pose proof (numbered_inj _ _ _ Hnid N2). lia.
    + exfalso. destruct (Hnum s2 i2 r2 A2) as (n & Hn & Hnid).
      rewrite <- Hid in Hnid. pose proof (numbered_inj _ _ _ Hnid N1). lia.
    + assert (s1 = s2) as -> by congruence.
      split; [reflexivity|]. congruence.
Qed.

Lemma wire_fresh_run (w w' : State) (es : list Event) :
  wire_fresh w -> run w es = Some w' -> wire_fresh w'.
Proof.
  revert w. induction es as [|e es IH]; intros w Hw; simpl.
  - now intros [= <-].
  - destruct (step w e) as [w1|] eqn:Es; [|discriminate].
    apply IH. eapply wire_fresh_step; eauto.
Qed.

(** X11.  As long as the counter is below 2^53, no id goes out twice:
    any two requests the client has sent, handshake requests and calls
    alike, on the same socket or on different ones, bear different
    ids, and each id is [req-n] or [call-n] for an [n] the counter has
    passed. *)
Theorem X11_ids_on_the_wire_are_distinct
        (tok : option string) (plat : string) (es : list Event) (w : State) :
  run (init tok plat) es = Some w ->
  requestId w < MAX_EXACT ->
  (forall s i r, sent_at w s i = Some r ->
     exists n, n < requestId w /\ numbered n (rq_id r)) /\
  (forall s1 i1 r1 s2 i2 r2,
     sent_at w s1 i1 = Some r1 -> sent_at w s2 i2 = Some r2 ->
     rq_id r1 = rq_id r2 -> s1 = s2 /\ i1 = i2).
Proof.
  intros Hr. apply (wire_fresh_run (init tok plat) w es); [|exact Hr].
  intros _. split.
  - intros s i r. unfold sent_at, wire. simpl. discriminate.
  - intros s1 i1 r1 s2 i2 r2. unfold sent_at, wire. simpl. discriminate.
Qed.

Lemma X11_ids_on_the_wire_are_distinct_witness :
  run (init None "linux") two_calls_answered_in_reverse = Some both_resolved /\
  requestId both_resolved < MAX_EXACT /\
  (forall s1 i1 r1 s2 i2 r2,
     sent_at both_resolved s1 i1 = Some r1 -> sent_at both_resolved s2 i2 = Some r2 ->
     rq_id r1 = rq_id r2 -> s1 = s2 /\ i1 = i2).
Proof.
  split; [vm_compute; reflexivity|]. split; [reflexivity|].
  apply (X11_ids_on_the_wire_are_distinct
           None "linux" two_calls_answered_in_reverse both_resolved).
  - vm_compute; reflexivity.
  - reflexivity.
Defined.

(** ** The timeout of a call once the call is settled *)

Lemma timeouts_kept_step (w w' : State) (e : Event) :
  wf w -> timeouts_kept w -> step w e = Some w' -> timeouts_kept w'.
Proof.
  intros Hw Hk Hs t tm' k Et Ecb.
  destruct (step_timers w w' e Hs) as (_ & H).
  destruct (H t tm' Et)
    as [E | [(tm & E & _ & _ & Hcb & [[_ Hx] | (_ & Hrt & _)])
           | (_ & [(s & _ & _ & ->) | (m & p & _ & _ & ->)])]].
  - eapply Hk; eauto.
  - congruence.
  - exfalso. destruct (wf_handle w Hw t Hrt) as (tm0 & E0 & Ecb0). congruence.
  - discriminate.
  - discriminate.
Qed.

Lemma timeouts_kept_run (w w' : State) (es : list Event) :
  wf w -> timeouts_kept w -> run w es = Some w' -> timeouts_kept w'.
Proof.
  revert w. induction es as [|e es IH]; intros w Hw Hk; simpl.
  - now intros [= <-].
  - destruct (step w e) as [w1|] eqn:Es; [|discriminate].
    apply IH; [eapply wf_step | eapply timeouts_kept_step]; eauto.
Qed.

Lemma settle_settled (k : nat) (o : Settlement) (w : State) (c : Call) :
  calls w !! k = Some c -> outcome c <> Pending -> settle k o w = w.
Proof.
  intros Hc Ho. unfold settle. rewrite Hc. now destruct (outcome c).
Qed.

(** X12.  The client never cancels the timeout of a call: in every
    state it reaches, no such timer has been cleared, so the timer of a
    call that was answered stays armed and fires 30 seconds after the
    call.  When it fires for a call that is already settled, no
    promise changes, nothing is emitted and nothing is sent. *)
Theorem X12_call_timeout_never_cancelled
        (w : State) (t k : nat) (tm : Timer) :
  reachable w ->
  timers w !! t = Some tm ->
  callback tm = CallTimeout k ->
  status tm <> Cleared /\
  (forall c w',
     calls w !! k = Some c -> outcome c <> Pending ->
     step w (Fire t) = Some w' ->
     calls w' = calls w /\ emitted w' = emitted w /\ wire w' = wire w /\
     connected w' = connected w).
Proof.
  intros (tok & plat & es & Hr) Et Ecb. split.
  - eapply (timeouts_kept_run (init tok plat) w es); eauto using wf_init.
    intros t0 tm0 k0 H. discriminate.
  - intros c w' Hc Ho Hs.
    apply step_fire_inv in Hs as (tm0 & Et0 & _ & _ & ->).
    assert (tm0 = tm) as -> by congruence. rewrite Ecb. simpl. unfold reject.
    set (w1 := set_timers (<[t:=with_status Fired tm]> (timers w)) w).
    rewrite (settle_settled k (Rejected Timeout) (off k w1) c)
      by (rewrite ?off_calls; assumption).
    destruct (off_ocl k w1)
      as (_ & _ & Hcn & _ & _ & _ & _ & _ & Hem & _ & _ & Hsn).
    rewrite off_calls. repeat split; assumption.
Qed.

Lemma answered_reachable : reachable answered.
Proof.
  exists None, "linux"%string,
    (handshake ++ [CallReq "cron.list" (JObj []);
                   WsMessage 0 (Text (response "call-1" (JStr "first")))]).
  vm_compute. reflexivity.
Qed.

Lemma X12_call_timeout_never_cancelled_witness :
  reachable answered /\
  timers answered !! 0%nat =
    Some {| due := 30000; callback := CallTimeout 0; status := Armed |} /\
  status {| due := 30000; callback := CallTimeout 0; status := Armed |} <> Cleared.
Proof.
  split; [exact answered_reachable|]. split; [reflexivity|].
  eapply (X12_call_timeout_never_cancelled answered 0 0).
  - exact answered_reachable.
  - reflexivity.
  - reflexivity.
Defined.

(** ** A call on a client that is not connected *)

(** X13.  [call()] on a client that is not connected (no accepted
    handshake, or no open socket) rejects its promise at once with
    [NotConnected] and does nothing else: no id is taken from the
    counter, nothing is sent, no listener is registered and no timer
    armed; and the promise stays rejected whatever happens later. *)
Theorem X13_call_when_not_connected (w : State) (method : string) (params : Json) :
  isConnected w = false ->
  call method params w =
    set_calls (calls w ++ [{| corr := None; outcome := Rejected NotConnected |}]) w /\
  (forall es w', run (call method params w) es = Some w' ->
     calls w' !! length (calls w) =
       Some {| corr := None; outcome := Rejected NotConnected |}).
Proof.
  intros Hi. unfold call. rewrite Hi. split; [reflexivity|].
  intros es w' Hr. eapply settled_is_final; [exact Hr | | discriminate].
  simpl. apply list_lookup_middle. reflexivity.
Qed.

Lemma X13_call_when_not_connected_witness :
  isConnected awaiting_reply = false /\
  call "cron.list" (JObj []) awaiting_reply =
    set_calls (calls awaiting_reply ++
                 [{| corr := None; outcome := Rejected NotConnected |}]) awaiting_reply.
Proof.
  split; [reflexivity|].
  apply (X13_call_when_not_connected awaiting_reply "cron.list" (JObj [])).
  reflexivity.
Defined.

(** ** disconnect() and the reconnect timer *)

Lemma disconnect_wire (w : State) : wire (disconnect w) = wire w.
Proof.
  unfold disconnect.
  set (w1 := match reconnectTimer w with
             | Some t => set_reconnectTimer None (clearTimeout t w)
             | None => w
             end).
  assert (wire w1 = wire w) as E1.
  { subst w1. destruct (reconnectTimer w) as [t|]; [|auto].
    unfold clearTimeout. destruct (timers w !! t) as [tm|]; [|auto].
    destruct (status tm); auto. }
  rewrite <- E1. destruct (ws w1) as [s|]; [|reflexivity].
  now apply (on_socket_wire s _ w1).
Qed.

(** X14.  [disconnect()] leaves the client with no current socket, no
    reconnect handle, [connected] false and no reconnect timer armed;
    it starts closing the socket that was current, emits nothing and
    sends nothing; and calling it again changes nothing. *)
Theorem X14_disconnect_effect_and_idempotence (w : State) :
  reachable w ->
  disconnect (disconnect w) = disconnect w /\
  ws (disconnect w) = None /\ reconnectTimer (disconnect w) = None /\
  connected (disconnect w) = false /\ isConnected (disconnect w) = false /\
  (forall t tm, timers (disconnect w) !! t = Some tm ->
                callback tm = Reconnect -> status tm <> Armed) /\
  (forall s sock, ws w = Some s -> sockets w !! s = Some sock ->
     readyState <$> (sockets (disconnect w) !! s) = Some (closing (readyState sock))) /\
  emitted (disconnect w) = emitted w /\
  wire (disconnect w) = wire w /\
  calls (disconnect w) = calls w.
Proof.
  intros Hr.
  destruct (disconnect_effect w (wf_reachable w Hr)) as (E1 & E2 & E3 & E4 & E5 & E6).
  split; [apply disconnect_idempotent|].
  split; [exact E2|]. split; [exact E1|]. split; [exact E3|]. split; [exact E4|].
  split; [exact E5|]. split; [exact E6|].
  split; [by_cases|]. split; [apply disconnect_wire|].
  now destruct (disconnect_summary w) as (-> & _).
Qed.

Lemma X14_disconnect_effect_and_idempotence_witness :
  reachable ready /\ disconnect (disconnect ready) = disconnect ready.
Proof.
  split; [exact ready_reachable|].
  apply (X14_disconnect_effect_and_idempotence ready). exact ready_reachable.
Defined.

Lemma waiting_to_reconnect_reachable : reachable waiting_to_reconnect.
Proof.
  exists None, "linux"%string, (handshake ++ [WsClose 0]). vm_compute. reflexivity.
Qed.

(** X15.  At any time at most one reconnect timer is armed, and it is
    the one whose handle is in [this.reconnectTimer]; a close that
    finds no handle arms one, due 2000 ms later, and a close that finds
    a handle arms none. *)
Theorem X15_one_reconnect_timer_at_most (w : State) :
  reachable w ->
  (forall t tm, timers w !! t = Some tm -> callback tm = Reconnect ->
                status tm = Armed -> reconnectTimer w = Some t) /\
  (forall t1 t2 tm1 tm2,
     timers w !! t1 = Some tm1 -> callback tm1 = Reconnect -> status tm1 = Armed ->
     timers w !! t2 = Some tm2 -> callback tm2 = Reconnect -> status tm2 = Armed ->
     t1 = t2) /\
  (forall s w', step w (WsClose s) = Some w' ->
     match reconnectTimer w with
     | None =>
         reconnectTimer w' = Some (length (timers w)) /\
         timers w' = timers w ++
           [{| due := now w + reconnectDelay; callback := Reconnect; status := Armed |}]
     | Some t => reconnectTimer w' = Some t /\ timers w' = timers w
     end).
Proof.
  intros Hr. split; [|split].
  - apply (wf_single w (wf_reachable w Hr)).
  - intros t1 t2 tm1 tm2. now apply at_most_one_reconnect_timer.
  - intros s w' Hs. destruct (reconnectTimer w) as [t|] eqn:E.
    + destruct (stale_handle_blocks_reconnect w w' s t E Hs). auto.
    + now apply (close_schedules_reconnect w w' s).
Qed.

Lemma X15_one_reconnect_timer_at_most_witness :
  reachable waiting_to_reconnect /\
  reconnectTimer waiting_to_reconnect = Some 0%nat.
Proof.
  split; [exact waiting_to_reconnect_reachable|].
  apply (proj1 (X15_one_reconnect_timer_at_most
                  waiting_to_reconnect waiting_to_reconnect_reachable)
               0%nat {| due := 2000; callback := Reconnect; status := Armed |});
    reflexivity.
Defined.

Lemma reconnected_once_reachable : reachable reconnected_once.
Proof.
  exists None, "linux"%string,
    (handshake ++ [WsClose 0; Elapse 2000; Fire 0; WsOpen 1;
                   WsMessage 1 (Text (challenge "xyz")); WsMessage 1 (Text acceptance)]).
  vm_compute. reflexivity.
Qed.

(** X16.  Once a reconnect timer has fired (or whenever
    [this.reconnectTimer] holds the handle of a timer that is not
    armed), the client creates no socket by itself: whatever the
    sockets deliver and however long it waits, the number of sockets
    stays the same and the handle stays in place, until a collaborator
    calls [connect()] or [disconnect()]. *)
Theorem X16_no_second_reconnect (w w' : State) (es : list Event) (t : nat) :
  reachable w ->
  reconnectTimer w = Some t ->
  (forall tm, timers w !! t = Some tm -> status tm <> Armed) ->
  forallb hands_off es = true ->
  run w es = Some w' ->
  length (sockets w') = length (sockets w) /\ reconnectTimer w' = Some t.
Proof.
  intros Hr. apply never_reconnects_again. now apply wf_reachable.
Qed.

Lemma X16_no_second_reconnect_witness :
  reachable reconnected_once /\
  reconnectTimer reconnected_once = Some 0%nat /\
  (forall tm, timers reconnected_once !! 0%nat = Some tm -> status tm <> Armed) /\
  forallb hands_off [WsClose 1; Elapse 600000] = true /\
  run reconnected_once [WsClose 1; Elapse 600000] =
    Some (set_now 602000
            (on_close (on_socket 1 (with_readyState CLOSED) reconnected_once))) /\
  length (sockets (set_now 602000
            (on_close (on_socket 1 (with_readyState CLOSED) reconnected_once)))) =
    length (sockets reconnected_once).
Proof.
  assert (forall tm, timers reconnected_once !! 0%nat = Some tm -> status tm <> Armed) as Hna
    by (intros tm [= <-]; discriminate).
  split; [exact reconnected_once_reachable|]. split; [reflexivity|].
  split; [exact Hna|]. split; [reflexivity|]. split; [vm_compute; reflexivity|].
  eapply (X16_no_second_reconnect reconnected_once _ [WsClose 1; Elapse 600000] 0).
  - exact reconnected_once_reachable.
  - reflexivity.
  - exact Hna.
  - reflexivity.
  - vm_compute; reflexivity.
Defined.

(** ** The listeners of calls *)

Lemma thins_refl (w : State) : thins w w.
Proof. intros s q H. exists q. auto. Qed.

Lemma thins_trans (w1 w2 w3 : State) : thins w1 w2 -> thins w2 w3 -> thins w1 w3.
Proof.
  intros H12 H23 s q3 E3.
  destruct (H23 s q3 E3) as (q2 & E2 & N2 & I2).
  destruct (H12 s q2 E2) as (q1 & E1 & N1 & I1).
  exists q1. auto.
Qed.

Lemma thins_same (w w' : State) : ears w' = ears w -> thins w w'.
Proof. intros E s q H. exists q. rewrite <- E. auto. Qed.

Lemma off_thins (h : nat) (w : State) : thins w (off h w).
Proof.
  unfold off, on_socket. destruct (ws w) as [s0|]; [|apply thins_refl].
  destruct (sockets w !! s0) as [sock|] eqn:E; [|apply thins_refl].
  intros s q'. unfold ears. simpl. rewrite list_fmap_insert. simpl.
  destruct (decide (s0 = s)) as [<-|Hne].
  - rewrite list_lookup_insert_eq
      by (rewrite length_fmap; eapply lookup_lt_Some; eauto).
    intros [= <-]. exists (listeners sock).
    rewrite list_lookup_fmap, E. split; [reflexivity|].
    unfold drop_listener. split.
    + intros Hnd. apply NoDup_ListNoDup, List.NoDup_filter.
      now apply NoDup_ListNoDup.
    + intros h' Hin. now apply filter_In in Hin.
  - rewrite list_lookup_insert_ne by assumption. intros H. exists q'. auto.
Qed.

Lemma settle_ears (k : nat) (o : Settlement) (w : State) :
  ears (settle k o w) = ears w.
Proof. unfold ears. now destruct (settle_sockets k o w) as (-> & _). Qed.

Lemma run_listener_thins (data : Frame) (w : State) (h : nat) :
  thins w (run_listener data w h).
Proof.
  unfold run_listener. destruct (calls w !! h) as [c|]; [|apply thins_refl].
  destruct (corr c) as [id|]; [|apply thins_refl].
  rewrite call_handler_verdict. destruct (verdict id data); [|apply thins_refl].
  eapply thins_trans; [apply off_thins | apply thins_same, settle_ears].
Qed.

Lemma fold_listeners_thins (data : Frame) (ls : list nat) (w : State) :
  thins w (fold_left (run_listener data) ls w).
Proof.
  revert w. induction ls as [|h ls IH]; intros w; simpl; [apply thins_refl|].
  eapply thins_trans; [apply run_listener_thins | apply IH].
Qed.

Lemma connect_ears (w : State) :
  ears (connect w) = ears w \/ ears (connect w) = ears w ++ [[]].
Proof.
  unfold connect, ears. destruct (ws_is_open w); [now left|].
  right. simpl. now rewrite fmap_app.
Qed.

(** The listeners after one event: on every socket listeners were at
    most removed, unless the event is a call on a connected client,
    which adds its own listener to the current socket, or the socket
    is new. *)
Lemma step_ears (w w' : State) (e : Event) :
  step w e = Some w' ->
  thins w w' \/
  ears w' = ears w ++ [[]] \/
  (exists s q, ws w = Some s /\ ears w !! s = Some q /\
               ears w' = <[s := q ++ [length (calls w)]]> (ears w) /\
               length (calls w') = S (length (calls w))).
Proof.
  destruct e as [| |m p|s|s data|s err|s|ms|t]; intros Hs.
  - injection Hs as <-. destruct (connect_ears w) as [E | E]; [left | right; left]; auto.
    now apply thins_same.
  - injection Hs as <-. left. apply thins_same, disconnect_listeners.
  - injection Hs as <-. destruct (isConnected w) eqn:Hi.
    + destruct (ws w) as [s|] eqn:Hw.
      * right; right.
        destruct (call_sends m p w s Hi Hw) as (sock & Es & E).
        destruct (call_summary m p w) as (_ & _ & H). rewrite Hi in H.
        destruct H as (Hc & _).
        exists s, (listeners sock). split; [reflexivity|].
        unfold ears. rewrite list_lookup_fmap, Es. split; [reflexivity|].
        rewrite E, list_fmap_insert, Hc, length_app. simpl. split; [reflexivity | lia].
      * unfold isConnected, ws_is_open in Hi. rewrite Hw in Hi.
        now rewrite andb_false_r in Hi.
    + left. unfold call. rewrite Hi. now apply thins_same.
  - apply step_open_inv in Hs as ->. left.
    apply thins_same, (on_socket_readyState_listeners s OPEN w).
  - apply step_message_inv in Hs as (k & _ & _ & ->). left. unfold deliver.
    eapply thins_trans; [|apply fold_listeners_thins].
    apply thins_same, on_message_listeners.
  - apply step_error_inv in Hs as ->. left. now apply thins_same.
  - apply step_close_inv in Hs as ->. left. apply thins_same.
    unfold on_close, scheduleReconnect.
    destruct (reconnectTimer _); apply (on_socket_readyState_listeners s CLOSED w).
  - injection Hs as <-. left. now apply thins_same.
  - apply step_fire_inv in Hs as (tm & _ & _ & _ & ->).
    destruct (callback tm) as [|k]; simpl.
    + destruct (connect_ears (log LogReconnecting
                  (set_timers (<[t:=with_status Fired tm]> (timers w)) w)))
        as [E | E]; [left | right; left]; auto.
      now apply thins_same.
    + left. unfold reject.
      eapply (thins_trans _ (off k (set_timers (<[t:=with_status Fired tm]> (timers w)) w))).
      * apply (off_thins k (set_timers (<[t:=with_status Fired tm]> (timers w)) w)).
      * apply thins_same, settle_ears.
Qed.

Lemma listeners_once_step (w w' : State) (e : Event) :
  listeners_once w -> step w e = Some w' -> listeners_once w'.
Proof.
  intros Hw Hs. destruct (step_calls w w' e Hs) as (Hl & _).
  destruct (step_ears w w' e Hs) as [Ht | [E | (s0 & q0 & Hws & E0 & E & Hlen)]].
  - intros s q' E'. destruct (Ht s q' E') as (q & Eq & Hn & Hi).
    destruct (Hw s q Eq) as (Hnd & Hh). split; [auto|].
    intros h Hin. destruct (Hh h (Hi h Hin)) as (Hb & Hu). split; [lia|].
    intros s2 q2' E2' Hin2. destruct (Ht s2 q2' E2') as (q2 & Eq2 & _ & Hi2).
    eapply Hu; eauto.
  - assert (forall s q, ears w' !! s = Some q ->
              ears w !! s = Some q \/ q = []) as Hc.
    { intros s q. rewrite E. intros H.
      apply lookup_app_Some in H as [H | [_ H]]; [now left|].
      apply list_lookup_singleton_Some in H as [_ <-]. now right. }
    intros s q E'. destruct (Hc s q E') as [Eq | ->].
    + destruct (Hw s q Eq) as (Hnd & Hh). split; [exact Hnd|].
      intros h Hin. destruct (Hh h Hin) as (Hb & Hu). split; [lia|].
      intros s2 q2 E2 Hin2. destruct (Hc s2 q2 E2) as [Eq2 | ->]; [|destruct Hin2].
      eapply Hu; eauto.
    + split; [constructor|]. intros h [].
  - assert (s0 < length (ears w))%nat as Hlt0 by (eapply lookup_lt_Some; eauto).
    assert (forall s q, ears w' !! s = Some q ->
              (s <> s0 /\ ears w !! s = Some q) \/
              (s = s0 /\ q = q0 ++ [length (calls w)])) as Hc.
    { intros s q. rewrite E. destruct (decide (s0 = s)) as [<-|Hne].
      - rewrite list_lookup_insert_eq by assumption. intros [= <-]. now right.
      - rewrite list_lookup_insert_ne by assumption. intros H. left. auto. }
    destruct (Hw s0 q0 E0) as (Hnd0 & Hh0).
    assert (forall s q h, ears w !! s = Some q -> In h q -> (h < length (calls w))%nat) as Hb.
    { intros s q h Eq Hin. destruct (Hw s q Eq) as (_ & Hh). now apply Hh. }
    intros s q E'. destruct (Hc s q E') as [(Hne & Eq) | (-> & ->)].
    + destruct (Hw s q Eq) as (Hnd & Hh). split; [exact Hnd|].
      intros h Hin. destruct (Hh h Hin) as (Hb' & Hu). split; [lia|].
      intros s2 q2 E2 Hin2. destruct (Hc s2 q2 E2) as [(_ & Eq2) | (-> & ->)].
      * eapply Hu; eauto.
      * apply in_app_or in Hin2 as [Hin2 | [<- | []]]; [eapply Hu; eauto | lia].
    + split.
      * apply NoDup_app. split; [exact Hnd0|]. split; [|apply NoDup_singleton].
        intros h Hin Hin'. apply list_elem_of_In in Hin, Hin'.
        destruct Hin' as [<- | []]. pose proof (Hb s0 q0 _ E0 Hin). lia.
      * intros h Hin. apply in_app_or in Hin as [Hin | [<- | []]].
        -- destruct (Hh0 h Hin) as (Hb' & Hu). split; [lia|].
           intros s2 q2 E2 Hin2. destruct (Hc s2 q2 E2) as [(_ & Eq2) | (-> & _)];
             [eapply Hu; eauto | reflexivity].
        -- split; [lia|].
           intros s2 q2 E2 Hin2. destruct (Hc s2 q2 E2) as [(_ & Eq2) | (-> & _)];
             [|reflexivity].
           pose proof (Hb s2 q2 _ Eq2 Hin2). lia.
Qed.

Lemma listeners_once_run (w w' : State) (es : list Event) :
  listeners_once w -> run w es = Some w' -> listeners_once w'.
Proof.
  revert w. induction es as [|e es IH]; intros w Hw; simpl.
  - now intros [= <-].
  - destruct (step w e) as [w1|] eqn:Es; [|discriminate].
    apply IH. eapply listeners_once_step; eauto.
Qed.

(** X17.  The listener of a call is never registered twice: in every
    state the client reaches, no socket has the same listener twice,
    no listener is on two sockets, and every listener belongs to a
    promise that [call()] returned. *)
Theorem X17_listener_registered_once
        (tok : option string) (plat : string) (es : list Event) (w : State) :
  run (init tok plat) es = Some w ->
  forall s q, ears w !! s = Some q ->
    NoDup q /\
    forall h, In h q ->
      (h < length (calls w))%nat /\
      forall s2 q2, ears w !! s2 = Some q2 -> In h q2 -> s2 = s.
Proof.
  intros Hr. apply (listeners_once_run (init tok plat) w es); [|exact Hr].
  intros s q. unfold ears. simpl. discriminate.
Qed.

Lemma X17_listener_registered_once_witness :
  run (init None "linux")
      (handshake ++ [CallReq "cron.list" (JObj []); CallReq "agent.send" (JObj [])]) =
    Some two_calls_pending /\
  ears two_calls_pending !! 0%nat = Some [0%nat; 1%nat] /\
  NoDup [0%nat; 1%nat].
Proof.
  assert (run (init None "linux")
            (handshake ++ [CallReq "cron.list" (JObj []); CallReq "agent.send" (JObj [])]) =
          Some two_calls_pending) as Hr by (vm_compute; reflexivity).
  split; [exact Hr|]. split; [reflexivity|].
  exact (proj1 (X17_listener_registered_once None "linux" _ two_calls_pending Hr
                  0%nat [0%nat; 1%nat] eq_refl)).
Defined.

(** ** C6: the timeout of a call *)

Lemma confined_step (k : nat) (P : nat -> Prop) (w w' : State) (e : Event) :
  (k < length (calls w))%nat -> confined k P w -> step w e = Some w' ->
  confined k P w'.
Proof.
  intros Hk Hc Hs.
  destruct (step_ears w w' e Hs) as [Ht | [E | (s0 & q0 & Hws & E0 & E & Hlen)]].
  - intros s q' E' Hin. destruct (Ht s q' E') as (q & Eq & _ & Hi).
    apply (Hc s q Eq). now apply Hi.
  - intros s q. rewrite E. intros H Hin.
    apply lookup_app_Some in H as [H | [_ H]]; [now apply (Hc s q H)|].
    apply list_lookup_singleton_Some in H as [_ <-]. destruct Hin.
  - intros s q. rewrite E. destruct (decide (s0 = s)) as [<-|Hne].
    + rewrite list_lookup_insert_eq by (eapply lookup_lt_Some; eauto).
      intros [= <-] Hin. apply in_app_or in Hin as [Hin | [<- | []]]; [|lia].
      now apply (Hc s0 q0 E0).
    + rewrite list_lookup_insert_ne by assumption. intros H Hin.
      now apply (Hc s q H).
Qed.

Lemma confined_run (k : nat) (P : nat -> Prop) (w w' : State) (es : list Event) :
  (k < length (calls w))%nat -> confined k P w -> run w es = Some w' ->
  confined k P w'.
Proof.
  revert w. induction es as [|e es IH]; intros w Hk Hc; simpl.
  - now intros [= <-].
  - destruct (step w e) as [w1|] eqn:Es; [|discriminate].
    apply IH; [|eapply confined_step; eauto].
    destruct (step_calls w w1 e Es) as (Hl & _). lia.
Qed.

Lemma listeners_once_reachable (w : State) : reachable w -> listeners_once w.
Proof.
  intros (tok & plat & es & Hr).
  apply (listeners_once_run (init tok plat) w es); [|exact Hr].
  intros s q. unfold ears. simpl. discriminate.
Qed.

(** The listener of a call is on the socket that was current when the
    call was made, and on no other. *)
Lemma call_confined (method : string) (params : Json) (w : State) (s : nat) :
  listeners_once w -> isConnected w = true -> ws w = Some s ->
  confined (length (calls w)) (eq s) (call method params w).
Proof.
  intros Hw Hi Hs. destruct (call_sends method params w s Hi Hs) as (sock & Es & E).
  intros s' q. unfold ears. rewrite E, list_fmap_insert.
  destruct (decide (s = s')) as [<-|Hne]; [reflexivity|].
  rewrite list_lookup_insert_ne by assumption. intros Hq Hin.
  destruct (Hw s' q Hq) as (_ & Hh). destruct (Hh _ Hin) as (Hb & _). lia.
Qed.

(** [this.ws?.off('message', handler)] takes the listener off every
    socket when the socket it is on is still the current one. *)
Lemma off_unregisters (k s : nat) (w : State) :
  ws w = Some s -> confined k (eq s) w -> unregistered k (off k w).
Proof.
  intros Hs Hc s' q'. unfold off, on_socket. rewrite Hs.
  destruct (sockets w !! s) as [sock|] eqn:E.
  - unfold ears. simpl. rewrite list_fmap_insert. simpl.
    destruct (decide (s = s')) as [<-|Hne].
    + rewrite list_lookup_insert_eq
        by (rewrite length_fmap; eapply lookup_lt_Some; eauto).
      intros [= <-]. apply not_in_drop_listener.
    + rewrite list_lookup_insert_ne by assumption. intros Hq Hin.
      apply Hne. exact (Hc s' q' Hq Hin).
  - intros Hq Hin. pose proof (Hc s' q' Hq Hin) as <-.
    unfold ears in Hq. rewrite list_lookup_fmap, E in Hq. discriminate.
Qed.

(** C6 (as the code has it).  A call is made on a connected client.  If
    the events before its timer fires bring neither a response bearing
    its id nor a malformed frame, then the promise is pending all that
    time, the timer fires no earlier than 30000 ms after the call, and
    the promise is then rejected with [Timeout].  The pending entry is
    removed: the socket of the call still being the current one, the
    listener of the call is on no socket from then on.  Nothing that
    happens afterwards, a late response for the same id included,
    changes the promise. *)
Theorem C6_timeout_rejects_and_late_response_is_ignored
        (w w1 w2 : State) (method : string) (params : Json) (es : list Event) :
  reachable w ->
  isConnected w = true ->
  run (call method params w) es = Some w1 ->
  forallb (quiet (call_id (requestId w)) (length (timers w))) es = true ->
  step w1 (Fire (length (timers w))) = Some w2 ->
  (forall es1 es2 w', es = es1 ++ es2 -> run (call method params w) es1 = Some w' ->
     calls w' !! length (calls w) =
       Some {| corr := Some (call_id (requestId w)); outcome := Pending |}) /\
  now w + callTimeout <= now w1 /\
  calls w2 !! length (calls w) =
    Some {| corr := Some (call_id (requestId w)); outcome := Rejected Timeout |} /\
  (ws w1 = ws w ->
   forall es' w3, run w2 es' = Some w3 -> unregistered (length (calls w)) w3) /\
  (forall es' w3, run w2 es' = Some w3 ->
     calls w3 !! length (calls w) =
       Some {| corr := Some (call_id (requestId w)); outcome := Rejected Timeout |}).
Proof.
  intros Hreach Hi Hr Hq Hs.
  pose proof (in_flight_call method params w (wf_reachable w Hreach) Hi) as Hf.
  pose proof (in_flight_run _ _ _ _ _ _ _ Hf Hq Hr) as [Hc (tm & Et & Ed & Ecb) _].
  apply step_fire_inv in Hs as (tm0 & Et0 & _ & Hdue & ->).
  assert (tm0 = tm) as -> by congruence. rewrite Ecb. simpl.
  set (w1' := set_timers (<[length (timers w):=with_status Fired tm]> (timers w1)) w1).
  destruct (timeout_summary (length (calls w)) w1')
    as (_ & _ & _ & _ & _ & _ & Heq).
  assert (calls (reject (length (calls w)) Timeout (off (length (calls w)) w1'))
            !! length (calls w) =
          Some {| corr := Some (call_id (requestId w)); outcome := Rejected Timeout |})
    as Hrej by (rewrite (Heq _ Hc); reflexivity).
  split; [|split; [lia|]; split; [exact Hrej|]; split].
  - intros es1 es2 w' -> Hr1. rewrite forallb_app in Hq.
    apply andb_prop in Hq as [Hq1 _].
    now destruct (in_flight_run _ _ _ _ _ _ _ Hf Hq1 Hr1).
  - intros Hsame es' w3 Hr3.
    assert (exists s, ws w = Some s) as [s Hws].
    { unfold isConnected, ws_is_open in Hi. destruct (ws w) as [s|]; [eauto|].
      now rewrite andb_false_r in Hi. }
    assert (length (calls w) < length (calls (call method params w)))%nat as Hlt.
    { destruct Hf as [Hfc _ _]. eapply lookup_lt_Some; eauto. }
    pose proof (confined_run _ _ _ _ _ Hlt
                  (call_confined method params w s
                     (listeners_once_reachable w Hreach) Hi Hws) Hr) as Hc1.
    assert (unregistered (length (calls w))
              (reject (length (calls w)) Timeout (off (length (calls w)) w1'))) as Hun.
    { intros s' q'. unfold reject. rewrite settle_ears.
      apply (off_unregisters (length (calls w)) s w1'); [simpl; congruence | exact Hc1]. }
    refine (confined_run _ _ _ _ _ _ Hun Hr3).
    eapply lookup_lt_Some; eauto.
  - intros es' w3 Hr'. apply (settled_is_final _ _ _ _ _ Hr' Hrej). discriminate.
Qed.

Lemma C6_timeout_rejects_and_late_response_is_ignored_witness :
  reachable ready /\
  isConnected ready = true /\
  run (call "agent.send" (JObj []) ready) [Elapse 30000] =
    Some (set_now 30000 (call "agent.send" (JObj []) ready)) /\
  forallb (quiet (call_id (requestId ready)) (length (timers ready)))
          [Elapse 30000] = true /\
  step (set_now 30000 (call "agent.send" (JObj []) ready))
       (Fire (length (timers ready))) = Some timed_out /\
  calls timed_out !! length (calls ready) =
    Some {| corr := Some (call_id (requestId ready)); outcome := Rejected Timeout |} /\
  unregistered (length (calls ready)) timed_out.
Proof.
  split; [exact ready_reachable|]. split; [reflexivity|].
  split; [vm_compute; reflexivity|]. split; [reflexivity|].
  split; [vm_compute; reflexivity|].
  destruct (C6_timeout_rejects_and_late_response_is_ignored
              ready (set_now 30000 (call "agent.send" (JObj []) ready)) timed_out
              "agent.send" (JObj []) [Elapse 30000])
    as (_ & _ & Hrej & Hgone & _).
  - exact ready_reachable.
  - reflexivity.
  - vm_compute; reflexivity.
  - reflexivity.
  - vm_compute; reflexivity.
  - split; [exact Hrej|]. exact (Hgone eq_refl [] timed_out eq_refl).
Defined.

(** C6, counterexample: no response to the call ever arrives, only a
    frame that is not JSON; when the timer fires after 30 seconds the
    promise has already been rejected with the parse error, and stays
    so: it is not rejected with [Timeout]. *)
Lemma C6_rejected_before_timeout_without_response :
  observe calls
    (handshake ++ [CallReq "agent.send" (JObj []); WsMessage 0 Garbled;
                   Elapse 30000; Fire 0]) =
    Some [{| corr := Some "call-1"; outcome := Rejected ParseError |}]%string.
Proof. vm_compute. reflexivity. Qed.

(** The condition on the socket is needed: after [disconnect()] the
    timeout rejects the promise all the same, and its listener is still
    on the socket of the call. *)
Example timeout_after_disconnect_scenario :
  observe (fun w => (calls w, ears w))
    (handshake ++ [CallReq "agent.send" (JObj []); Disconnect;
                   Elapse 30000; Fire 0]) =
    Some ([{| corr := Some "call-1"; outcome := Rejected Timeout |}], [[0%nat]])%string.
Proof. vm_compute. reflexivity. Qed.

(** The scenario of the specification: the response arrives after the
    timeout and is dropped. *)
Example late_response_scenario :
  observe calls
    (handshake ++ [CallReq "agent.send" (JObj []); Elapse 30000; Fire 0;
                   WsMessage 0 (Text (response "call-1" (JStr "late")))]) =
    Some [{| corr := Some "call-1"; outcome := Rejected Timeout |}]%string.
Proof. vm_compute. reflexivity. Qed.

(** ** What the client emits *)

Lemma sendRequest_emitted (method : string) (params : Json) (w : State) :
  emitted (sendRequest method params w) = emitted w.
Proof. by_cases. Qed.

Lemma step_emitted (w w' : State) (e : Event) :
  step w e = Some w' -> emitted w' = emitted w ++ emits (now w) e.
Proof.
  destruct e as [| |m p|s|s data|s err|s|ms|t]; intros Hs; simpl.
  - injection Hs as <-. rewrite app_nil_r. by_cases.
  - injection Hs as <-. rewrite app_nil_r. by_cases.
  - injection Hs as <-. rewrite app_nil_r. unfold call.
    destruct (isConnected w); [|reflexivity]. destruct (ws w); [|reflexivity]. by_cases.
  - apply step_open_inv in Hs as ->. rewrite app_nil_r. by_cases.
  - apply step_message_inv in Hs as (k & _ & _ & ->). unfold deliver.
    destruct (fold_listeners_ocl data (listeners k) (on_message data w))
      as (_ & _ & _ & _ & _ & _ & _ & _ & -> & _).
    destruct data as [|j]; [simpl; now rewrite app_nil_r|].
    destruct (is_pushed_event j) eqn:Ep.
    { rewrite (on_message_pushed j w Ep). simpl. now rewrite <- app_assoc. }
    destruct (is_connect_reply j) eqn:Er.
    { rewrite (on_message_connect_reply j w Er). cbv zeta. simpl.
      destruct (truthy (prop "ok" j)); [reflexivity|].
      rewrite app_nil_r.
      now destruct (close_current_fields
                      (log (LogHandshakeFailed (prop "error" j))
                         (log (LogMessage (prop "type" j)
                                 (or_else (prop "event" j) (prop "method" j))) w)))
        as (_ & _ & -> & _). }
    cbn [andb]. rewrite app_nil_r.
    destruct (nullish j) eqn:En; [unfold on_message; now rewrite En|].
    destruct (is_str (prop "type" j) "event") eqn:Et.
    + assert (is_challenge j = true) as Hc.
      { unfold is_challenge, is_pushed_event in *. rewrite En, Et in *. simpl in *.
        now apply negb_false_iff in Ep. }
      rewrite (on_message_challenge j w Hc). now rewrite sendRequest_emitted.
    + now rewrite (on_message_other j w En Et Er).
  - apply step_error_inv in Hs as ->. reflexivity.
  - apply step_close_inv in Hs as ->. by_cases.
  - injection Hs as <-. now rewrite app_nil_r.
  - apply step_fire_inv in Hs as (tm & _ & _ & _ & ->). rewrite app_nil_r.
    destruct (callback tm) as [|k]; simpl.
    + by_cases.
    + unfold reject.
      now destruct (ocl_trans _ _ _
                      (off_ocl k (set_timers (<[t:=with_status Fired tm]> (timers w)) w))
                      (settle_ocl k (Rejected Timeout) _))
        as (_ & _ & _ & _ & _ & _ & _ & _ & -> & _).
Qed.

(** X18.  What the client emits is decided by the inbound event alone
    (and the clock, for the timestamp): a pushed event gives its two
    emissions, an accepted reply to [connect] gives [connected], a
    socket error gives [error] with the error, a close gives
    [disconnected], and nothing else gives anything: not [connect()],
    [disconnect()] or [call()], not a socket opening, not a timer,
    not a challenge, a refused handshake, a response to a call or a
    malformed frame.  Emissions are never withdrawn or reordered. *)
Theorem X18_emissions_follow_inbound_events (w w' : State) (e : Event) :
  step w e = Some w' -> emitted w' = emitted w ++ emits (now w) e.
Proof. exact (step_emitted w w' e). Qed.

Lemma X18_emissions_follow_inbound_events_witness :
  step ready (WsClose 0) =
    Some (on_close (on_socket 0 (with_readyState CLOSED) ready)) /\
  emitted (on_close (on_socket 0 (with_readyState CLOSED) ready)) =
    emitted ready ++ [mkEmission (JStr "disconnected") NoArg].
Proof.
  split; [vm_compute; reflexivity|].
  apply (X18_emissions_follow_inbound_events ready _ (WsClose 0)).
  vm_compute; reflexivity.
Defined.

Lemma status_shown_app (number_text : Z -> string) (es1 es2 : list Emission) :
  status_shown number_text (es1 ++ es2) =
    fold_left (status_listener number_text) es2 (status_shown number_text es1).
Proof. unfold status_shown. apply fold_left_app. Qed.

Lemma plain_step_status (number_text : Z -> string) (w w' : State) (e : Event) :
  plain number_text e = true -> step w e = Some w' ->
  status_shown number_text (emitted w') =
    flag_after (status_shown number_text (emitted w)) e.
Proof.
  intros Hp Hs. rewrite (step_emitted w w' e Hs), status_shown_app.
  destruct e as [| |m p|s|s data|s err|s|ms|t]; try reflexivity; try discriminate.
  destruct data as [|j]; [reflexivity|]. simpl in *.
  destruct (is_pushed_event j) eqn:Ep.
  - simpl in Hp. apply negb_true_iff, orb_false_iff in Hp as [Hc Hd].
    assert (is_connect_reply j = false) as Er.
    { unfold is_pushed_event, is_connect_reply in *.
      destruct (nullish j); [discriminate|]. simpl in *.
      destruct (is_str (prop "type" j) "event") eqn:Et; [|discriminate].
      now rewrite (is_str_event_not_res _ Et). }
    rewrite Er. simpl. unfold status_listener. simpl.
    fold (event_name j). now rewrite Hc, Hd.
  - destruct (is_connect_reply j && truthy (prop "ok" j)); reflexivity.
Qed.

(** X19.  As long as [disconnect()] is not called and the gateway
    pushes no event whose name has the key of the channel ['connected']
    or ['disconnected'] (the strings, but also the arrays
    [["connected"]] and [["disconnected"]]), the status the main
    process last sent to the windows is the [connected] flag of the
    client.  This holds however numbers are printed. *)
Theorem X19_status_shown_is_connected_flag
        (number_text : Z -> string)
        (tok : option string) (plat : string) (es : list Event) (w : State) :
  run (init tok plat) es = Some w ->
  forallb (plain number_text) es = true ->
  status_shown number_text (emitted w) = connected w.
Proof.
  intros Hr Hp. rewrite (run_connected _ _ _ Hr).
  change (connected (init tok plat))
    with (status_shown number_text (emitted (init tok plat))).
  revert Hr Hp. generalize (init tok plat). intros w0. revert w0.
  induction es as [|e es IH]; intros w0; simpl.
  - now intros [= <-].
  - destruct (step w0 e) as [w1|] eqn:Es; [|discriminate].
    intros Hr Hp. apply andb_prop in Hp as [Hp Hps].
    rewrite (IH w1 Hr Hps). now rewrite (plain_step_status number_text w0 w1 e Hp Es).
Qed.

Lemma X19_status_shown_is_connected_flag_witness :
  run (init None "linux") (handshake ++ [WsClose 0]) = Some waiting_to_reconnect /\
  forallb (plain decimal) (handshake ++ [WsClose 0]) = true /\
  status_shown decimal (emitted waiting_to_reconnect) = connected waiting_to_reconnect.
Proof.
  split; [vm_compute; reflexivity|]. split; [reflexivity|].
  apply (X19_status_shown_is_connected_flag
           decimal None "linux" (handshake ++ [WsClose 0]) waiting_to_reconnect).
  - vm_compute; reflexivity.
  - reflexivity.
Defined.

(** Why such names are set aside: an event named [["connected"]] is
    not [plain], and it makes the main process announce a connection
    that the client does not have. *)
Example posing_as_connected_scenario :
  plain decimal (WsMessage 0 (Text event_posing_as_connected)) = false /\
  observe (fun w => (status_shown decimal (emitted w), connected w))
          [Connect; WsOpen 0; WsMessage 0 (Text event_posing_as_connected)] =
    Some (true, false).
Proof. split; vm_compute; reflexivity. Qed.
